(** * Beruto: the ChronoEngine backtesting core (engine.cpp, account.h)

    A shallow embedding of [ChronoEngine::run] and of the [Account] /
    [Position] data model, together with the properties of the simulation
    loop.

    Modelling conventions.
    - [double]: a C++ [double] is an extended rational.  A finite value is an
      exact rational [Fin q]; [PInf], [NInf] and [NaN] follow the IEEE-754
      rules for special values (NaN is unordered and absorbing, inf - inf and
      0 * inf are NaN, ...).  Rounding, overflow of finite values and the sign
      of zero are not modelled: arithmetic on finite values is exact.
    - [int]: a 32-bit two's complement integer, [static_cast_int] wraps.
    - [py::ssize_t] indices and shapes are [Z].
    - [std::unordered_map<int, Position>] is a [gmap Z Position].
    - [py::array_t<double>] is a shape and an element function; the
      [unchecked<2>()] proxy reads without a bounds check, so a read outside
      the index space has no defined value: [unchecked] returns [None] there
      and [run] ends in [OutOfBounds]. *)

From Stdlib Require Import ZArith QArith Lqa Lia Bool String List.
From stdpp Require Import base option list gmap fin_maps.

Local Open Scope Z_scope.

(** ** Doubles *)

Inductive double : Type :=
| Fin (q : Q)
| PInf
| NInf
| NaN.

Declare Scope double_scope.
Delimit Scope double_scope with D.
Bind Scope double_scope with double.

Definition Qltb (a b : Q) : bool :=
  match (a ?= b)%Q with Lt => true | _ => false end.

Definition Qleb (a b : Q) : bool :=
  match (a ?= b)%Q with Gt => false | _ => true end.

Definition Qeqb (a b : Q) : bool :=
  match (a ?= b)%Q with Eq => true | _ => false end.

(** [x < y]; false as soon as one side is NaN. *)
Definition dlt (x y : double) : bool :=
  match x, y with
  | NaN, _ | _, NaN => false
  | Fin a, Fin b => Qltb a b
  | NInf, NInf => false
  | NInf, _ => true
  | _, NInf => false
  | PInf, _ => false
  | Fin _, PInf => true
  end.

(** [x <= y]; false as soon as one side is NaN. *)
Definition dle (x y : double) : bool :=
  match x, y with
  | NaN, _ | _, NaN => false
  | Fin a, Fin b => Qleb a b
  | NInf, _ => true
  | _, PInf => true
  | PInf, _ => false
  | Fin _, NInf => false
  end.

Definition dgt (x y : double) : bool := dlt y x.

(** [x == y]; false as soon as one side is NaN. *)
Definition deqb (x y : double) : bool :=
  match x, y with
  | Fin a, Fin b => Qeqb a b
  | PInf, PInf | NInf, NInf => true
  | _, _ => false
  end.

(** [std::isfinite] *)
Definition isfinite (x : double) : bool :=
  match x with Fin _ => true | _ => false end.

Definition dopp (x : double) : double :=
  match x with
  | Fin a => Fin (- a)
  | PInf => NInf
  | NInf => PInf
  | NaN => NaN
  end.

Definition dadd (x y : double) : double :=
  match x, y with
  | NaN, _ | _, NaN => NaN
  | Fin a, Fin b => Fin (a + b)
  | PInf, NInf | NInf, PInf => NaN
  | PInf, _ | _, PInf => PInf
  | NInf, _ | _, NInf => NInf
  end.

Definition dsub (x y : double) : double := dadd x (dopp y).

(** The infinity carrying the sign of a finite factor; NaN for a zero
    factor (0 * inf). *)
Definition signed_inf (positive : bool) (a : Q) : double :=
  match (a ?= 0)%Q with
  | Eq => NaN
  | Gt => if positive then PInf else NInf
  | Lt => if positive then NInf else PInf
  end.

Definition dmul (x y : double) : double :=
  match x, y with
  | NaN, _ | _, NaN => NaN
  | Fin a, Fin b => Fin (a * b)
  | Fin a, PInf | PInf, Fin a => signed_inf true a
  | Fin a, NInf | NInf, Fin a => signed_inf false a
  | PInf, PInf | NInf, NInf => PInf
  | PInf, NInf | NInf, PInf => NInf
  end.

Definition ddiv (x y : double) : double :=
  match x, y with
  | NaN, _ | _, NaN => NaN
  | Fin a, Fin b =>
      match (b ?= 0)%Q with
      | Eq => signed_inf true a
      | _ => Fin (a / b)
      end
  | Fin _, _ => Fin 0
  | PInf, Fin b => if Qleb 0 b then PInf else NInf
  | NInf, Fin b => if Qleb 0 b then NInf else PInf
  | _, _ => NaN
  end.

(** [std::min(a, b)] is [(b < a) ? b : a]. *)
Definition dmin (a b : double) : double := if dlt b a then b else a.

Infix "+" := dadd : double_scope.
Infix "-" := dsub : double_scope.
Infix "*" := dmul : double_scope.
Infix "/" := ddiv : double_scope.
Notation "- x" := (dopp x) : double_scope.
Infix "<?" := dlt : double_scope.
Infix "<=?" := dle : double_scope.
Infix ">?" := dgt : double_scope.
Infix "=?" := deqb : double_scope.

(** Two doubles denote the same value. *)
Definition deq (x y : double) : Prop :=
  match x, y with
  | Fin a, Fin b => (a == b)%Q
  | PInf, PInf | NInf, NInf | NaN, NaN => True
  | _, _ => False
  end.

Infix "=d=" := deq (at level 70, no associativity).

(** ** account.h: Position and Account *)

Record Position : Type := mkPosition {
  total_shares : double;
  sellable_shares : double;
  avg_cost : double
}.

(** A value-initialised [Position]: every member is [0.0]. *)
Definition Position0 : Position :=
  {| total_shares := Fin 0; sellable_shares := Fin 0; avg_cost := Fin 0 |}.

Record Account : Type := mkAccount {
  cash : double;
  positions : gmap Z Position
}.

(** ** engine.h: the engine owns one account *)

Record ChronoEngine : Type := mkEngine {
  account_ : Account
}.

(** [ChronoEngine::ChronoEngine(double initial_cash)] *)
Definition ChronoEngine_new (initial_cash : double) : ChronoEngine :=
  {| account_ := {| cash := initial_cash; positions := ∅ |} |}.

(** ** Arrays *)

(** A [py::array_t<double>]: [ndim] is the length of [shape]; [data i j] is
    the element at row [i], column [j] of a two-dimensional array. *)
Record array_t : Type := mkArray {
  shape : list Z;
  data : Z → Z → double
}.

Definition ndim (a : array_t) : Z := Z.of_nat (length (shape a)).

Definition shape_at (a : array_t) (i : nat) : Z := nth i (shape a) 0.

(** [a.unchecked<2>()(i, j)]: no bounds check; outside the index space the
    read has no defined value. *)
Definition unchecked (a : array_t) (i j : Z) : option double :=
  if (0 <=? i) && (i <? shape_at a 0) && (0 <=? j) && (j <? shape_at a 1)
  then Some (data a i j)
  else None.

(** The two-dimensional array holding the given rows. *)
Definition matrix (rows : list (list double)) : array_t :=
  {| shape := [Z.of_nat (length rows); Z.of_nat (length (hd [] rows))];
     data := λ i j, nth (Z.to_nat j) (nth (Z.to_nat i) rows []) NaN |}.

(** ** Integers *)

(** [static_cast<int>(stock)] from a 64-bit [py::ssize_t]: reduction modulo
    2^32 into [-2^31, 2^31). *)
Definition static_cast_int (x : Z) : Z :=
  (x + 2147483648) mod 4294967296 - 2147483648.

(** [for (py::ssize_t i = 0; i < n; ++i) body], as [for_loop (Z.to_nat n) 0
    body]: [count] iterations starting at index [i]; [None] as soon as an
    iteration has no defined result. *)
Fixpoint for_loop {S : Type} (count : nat) (i : Z) (body : Z → S → option S)
    (s : S) : option S :=
  match count with
  | O => Some s
  | Datatypes.S count' =>
      match body i s with
      | Some s' => for_loop count' (i + 1) body s'
      | None => None
      end
  end.

(** The states after each completed iteration of the same loop, in order. *)
Fixpoint for_trace {S : Type} (count : nat) (i : Z) (body : Z → S → option S)
    (s : S) : list S :=
  match count with
  | O => []
  | Datatypes.S count' =>
      match body i s with
      | Some s' => s' :: for_trace count' (i + 1) body s'
      | None => []
      end
  end.

(** ** engine.cpp: ChronoEngine::run *)

Definition commission : double := Fin 0.0003.
Definition slippage : double := Fin 0.0003.

(** Lines 35-38: every position becomes fully sellable. *)
Definition unlock_position (pos : Position) : Position :=
  {| total_shares := total_shares pos;
     sellable_shares := total_shares pos;
     avg_cost := avg_cost pos |}.

Definition unlock (a : Account) : Account :=
  {| cash := cash a; positions := unlock_position <$> positions a |}.

(** Line 43: the price makes the loop [continue]. *)
Definition skip_price (price : double) : bool :=
  (price <=? Fin 0)%D || negb (isfinite price).

(** The locals of the buy branch, lines 52-59. *)
Definition intent_cash (a : Account) (sig : double) : double :=
  (cash a * dmin sig (Fin 1))%D.

Definition target_shares (a : Account) (sig price : double) : double :=
  (intent_cash a sig / price)%D.

Definition buy_notional (a : Account) (sig price : double) : double :=
  (target_shares a sig price * price)%D.

Definition buy_cost (a : Account) (sig price : double) : double :=
  (buy_notional a sig price * (Fin 1 + commission + slippage))%D.

(** Lines 64-70: the position after a buy that passed both guards. *)
Definition bought (pos : Position) (shares notional : double) : Position :=
  let new_total_shares := (total_shares pos + shares)%D in
  let new_cost := (avg_cost pos * total_shares pos + notional)%D in
  {| total_shares := new_total_shares;
     sellable_shares := (sellable_shares pos + shares * Fin 0)%D;
     avg_cost := if (new_total_shares >? Fin 0)%D
                 then (new_cost / new_total_shares)%D else Fin 0 |}.

(** Lines 50-71. [positions[key]] creates a value-initialised position when
    the key is absent. *)
Definition buy (price sig : double) (stock : Z) (a : Account) : Account :=
  let shares := target_shares a sig price in
  if (shares <=? Fin 0)%D then a else
  let notional := buy_notional a sig price in
  let cost := buy_cost a sig price in
  if (cost >? cash a)%D then a else
  let key := static_cast_int stock in
  let pos := default Position0 (positions a !! key) in
  {| cash := (cash a - cost)%D;
     positions := <[key := bought pos shares notional]> (positions a) |}.

(** Line 80. *)
Definition sell_shares (pos : Position) (sig : double) : double :=
  dmin (sellable_shares pos) (total_shares pos * dmin (- sig) (Fin 1))%D.

(** Lines 87-94: the position after a sell of [shares]. *)
Definition sold (pos : Position) (shares : double) : Position :=
  let total := (total_shares pos - shares)%D in
  let sellable := (sellable_shares pos - shares)%D in
  if (total <=? Fin 0)%D
  then {| total_shares := Fin 0; sellable_shares := Fin 0; avg_cost := Fin 0 |}
  else {| total_shares := total; sellable_shares := sellable;
          avg_cost := avg_cost pos |}.

Definition sell_proceeds (shares price : double) : double :=
  (shares * price * (Fin 1 - commission - slippage))%D.

(** Lines 72-96. *)
Definition sell (price sig : double) (stock : Z) (a : Account) : Account :=
  let key := static_cast_int stock in
  match positions a !! key with
  | None => a
  | Some pos =>
      let shares := sell_shares pos sig in
      if (shares <=? Fin 0)%D then a else
      {| cash := (cash a + sell_proceeds shares price)%D;
         positions := <[key := sold pos shares]> (positions a) |}
  end.

(** Lines 47-96: what the loop body does once the price is accepted. *)
Definition trade (price sig : double) (stock : Z) (a : Account) : Account :=
  if (sig >? Fin 0)%D then buy price sig stock a
  else if (sig <? Fin 0)%D then sell price sig stock a
  else a.

(** Lines 40-97: one iteration of the instrument loop on day [t]. The
    signal is read only when the price is accepted. *)
Definition instrument_step (p s : array_t) (t stock : Z) (a : Account)
    : option Account :=
  price ← unchecked p t stock;
  if skip_price price then Some a
  else sig ← unchecked s t stock; Some (trade price sig stock a).

(** Lines 102-107: one iteration of the valuation loop. *)
Definition valuation_step (p : array_t) (t : Z) (stock : Z) (pos : Position)
    (acc : option double) : option double :=
  equity_today ← acc;
  px ← unchecked p t stock;
  Some (if (px >? Fin 0)%D && isfinite px
        then (equity_today + total_shares pos * px)%D
        else equity_today).

(** Lines 99-108. *)
Definition valuation (p : array_t) (t : Z) (a : Account) : option double :=
  map_fold (valuation_step p t) (Some (cash a)) (positions a).

(** Lines 40-97: the instrument loop of day [t]. *)
Definition instrument_pass (p s : array_t) (n_stocks : Z) (t : Z)
    (a : Account) : option Account :=
  for_loop (Z.to_nat n_stocks) 0 (instrument_step p s t) a.

(** Lines 35-97: unlock, then the instrument pass of day [t]. *)
Definition trading_day (p s : array_t) (n_stocks : Z) (t : Z) (a : Account)
    : option Account :=
  instrument_pass p s n_stocks t (unlock a).

(** Lines 32-110: one iteration of the day loop; the state is the account
    and the [equity] vector. *)
Definition day_step (p s : array_t) (n_stocks : Z) (t : Z)
    (st : Account * list double) : option (Account * list double) :=
  a ← trading_day p s n_stocks t st.1;
  equity_today ← valuation p t a;
  Some (a, st.2 ++ [equity_today]).

Inductive exception : Type :=
| runtime_error (what : string).

(** The errors of the shape check, lines 12-19. *)
Definition ShapeMismatch (e : exception) : Prop :=
  e = runtime_error "prices and signals must be 2D arrays"
  ∨ e = runtime_error "prices and signals shapes must match".

(** How a call of [run] ends: it returns the equity vector and leaves the
    engine in a new state, it throws and leaves the engine as it is, or an
    unchecked read left the arrays. *)
Inductive outcome : Type :=
| Returned (engine : ChronoEngine) (equity : list double)
| Thrown (engine : ChronoEngine) (e : exception)
| OutOfBounds.

Definition run (engine : ChronoEngine) (prices signals : array_t) : outcome :=
  if negb (ndim prices =? 2) || negb (ndim signals =? 2)
  then Thrown engine (runtime_error "prices and signals must be 2D arrays")
  else
  if negb (shape_at prices 0 =? shape_at signals 0)
     || negb (shape_at prices 1 =? shape_at signals 1)
  then Thrown engine (runtime_error "prices and signals shapes must match")
  else
  let n_days := shape_at prices 0 in
  let n_stocks := shape_at prices 1 in
  match for_loop (Z.to_nat n_days) 0 (day_step prices signals n_stocks)
          (account_ engine, []) with
  | Some (a, equity) => Returned {| account_ := a |} equity
  | None => OutOfBounds
  end.

(** ** Vocabulary of the properties *)

(** The values a well-formed account holds are real numbers. *)
Definition finite_position (pos : Position) : Prop :=
  isfinite (total_shares pos) = true ∧
  isfinite (sellable_shares pos) = true ∧
  isfinite (avg_cost pos) = true.

Definition finite_account (a : Account) : Prop :=
  isfinite (cash a) = true ∧
  map_Forall (λ _ pos, finite_position pos) (positions a).

(** The invariant of a position: [0 <= sellable_shares <= total_shares], and
    a position without shares has neither sellable shares nor a cost. *)
Definition position_inv (pos : Position) : Prop :=
  (Fin 0 <=? sellable_shares pos)%D = true ∧
  (sellable_shares pos <=? total_shares pos)%D = true ∧
  ((total_shares pos =? Fin 0)%D = true →
   (sellable_shares pos =? Fin 0)%D = true ∧ (avg_cost pos =? Fin 0)%D = true).

Definition account_inv (a : Account) : Prop :=
  map_Forall (λ _ pos, position_inv pos) (positions a).

(** Every key of the position map is a column index of a matrix with
    [n_stocks] columns. *)
Definition keys_in_range (n_stocks : Z) (a : Account) : Prop :=
  map_Forall (λ key _, 0 ≤ key < n_stocks) (positions a).

(** The largest column count whose indices all survive [static_cast<int>]. *)
Definition INT_COLUMNS : Z := 2147483648.

(** Both guards of the buy branch let the order through. *)
Definition buy_accepted (price sig : double) (a : Account) : bool :=
  negb (target_shares a sig price <=? Fin 0)%D
  && negb (buy_cost a sig price >? cash a)%D.

(** The accounts a run goes through on one day: after the unlock and after
    each iteration of the instrument loop. *)
Definition day_points (p s : array_t) (n_stocks : Z) (t : Z) (a : Account)
    : list Account :=
  unlock a :: for_trace (Z.to_nat n_stocks) 0 (instrument_step p s t) (unlock a).

Fixpoint days_points (count : nat) (t : Z) (p s : array_t) (n_stocks : Z)
    (a : Account) : list Account :=
  match count with
  | O => []
  | Datatypes.S count' =>
      day_points p s n_stocks t a ++
      match day_step p s n_stocks t (a, []) with
      | Some (a', _) => days_points count' (t + 1) p s n_stocks a'
      | None => []
      end
  end.

(** The accounts a call of [run] goes through, in order; none when the call
    throws. *)
Definition run_points (engine : ChronoEngine) (prices signals : array_t)
    : list Account :=
  match run engine prices signals with
  | Thrown _ _ => []
  | _ => days_points (Z.to_nat (shape_at prices 0)) 0 prices signals
           (shape_at prices 1) (account_ engine)
  end.

(** The account once the trades of days [0..t] are done. *)
Definition account_after (p s : array_t) (a : Account) (t : Z)
    : option Account :=
  for_loop (Z.to_nat (t + 1)) 0 (trading_day p s (shape_at p 1)) a.

(** What a position is worth on day [t]: its shares at that day's price of
    its instrument, and nothing when that price is not a positive finite
    number. *)
Definition position_value (p : array_t) (t : Z) (stock : Z) (pos : Position)
    : double :=
  let px := data p t stock in
  if (px <=? Fin 0)%D || negb (isfinite px) then Fin 0
  else (total_shares pos * px)%D.

Definition holdings_value (p : array_t) (t : Z) (a : Account) : double :=
  foldr (λ kv acc, (position_value p t kv.1 kv.2 + acc)%D) (Fin 0)
        (map_to_list (positions a)).

Definition equity_value (p : array_t) (t : Z) (a : Account) : double :=
  (cash a + holdings_value p t a)%D.

(** ** Concrete inputs *)

(** A fresh engine with 10000 in cash, two days of one instrument at price
    10: buy with half the cash on the first day, sell everything on the
    second. *)
Definition demo_engine : ChronoEngine := ChronoEngine_new (Fin 10000).
Definition demo_prices : array_t := matrix [[Fin 10]; [Fin 10]].
Definition demo_signals : array_t := matrix [[Fin 0.5]; [Fin (-1)]].

(** An account that holds 500 sellable shares of instrument 0. *)
Definition demo_holding : Account :=
  {| cash := Fin 4997;
     positions := {[ 0 := {| total_shares := Fin 500;
                             sellable_shares := Fin 500;
                             avg_cost := Fin 10 |} ]} |}.


(** ** Row slices *)

(** The slices [a[:k]] and [a[k:]] of a two-dimensional array along its
    first axis, as a caller would pass them to successive runs. *)
Definition take_rows (k : Z) (a : array_t) : array_t :=
  {| shape := [k; shape_at a 1]; data := data a |}.

Definition drop_rows (k : Z) (a : array_t) : array_t :=
  {| shape := [shape_at a 0 - k; shape_at a 1];
     data := λ i j, data a (i + k) j |}.

(** ** Accounting *)


(** ** Turns and idle signals *)

(** The account when the instrument loop of day [t] reaches instrument
    [stock]: after the unlock and the iterations of the instruments before
    it. *)
Definition account_at_turn (p s : array_t) (t stock : Z) (a : Account)
    : option Account :=
  for_loop (Z.to_nat stock) 0 (instrument_step p s t) (unlock a).

(** A signal that takes neither branch of lines 50 and 72: zero or NaN. *)
Definition idle_signal (sig : double) : bool :=
  negb (sig >? Fin 0)%D && negb (sig <? Fin 0)%D.

(** ** More concrete inputs *)

(** An engine that holds [demo_holding], two days of signals that are zero
    or NaN, and one day without a price. *)
Definition demo_holding_engine : ChronoEngine := {| account_ := demo_holding |}.
Definition demo_idle_signals : array_t := matrix [[Fin 0]; [NaN]].
Definition demo_no_prices : array_t := matrix [[NaN]].

(** * Properties *)

(** ** Comparisons of rationals *)

Lemma Qltb_true a b : Qltb a b = true ↔ (a < b)%Q.
Proof. unfold Qltb. destruct (Qcompare_spec a b); split; (discriminate || lra || reflexivity). Qed.

Lemma Qltb_false a b : Qltb a b = false ↔ (b <= a)%Q.
Proof. unfold Qltb. destruct (Qcompare_spec a b); split; (discriminate || lra || reflexivity). Qed.

Lemma Qleb_true a b : Qleb a b = true ↔ (a <= b)%Q.
Proof. unfold Qleb. destruct (Qcompare_spec a b); split; (discriminate || lra || reflexivity). Qed.

Lemma Qleb_false a b : Qleb a b = false ↔ (b < a)%Q.
Proof. unfold Qleb. destruct (Qcompare_spec a b); split; (discriminate || lra || reflexivity). Qed.

Lemma Qeqb_true a b : Qeqb a b = true ↔ (a == b)%Q.
Proof. unfold Qeqb. destruct (Qcompare_spec a b); split; (discriminate || lra || reflexivity). Qed.

Lemma Qeqb_false a b : Qeqb a b = false ↔ ¬ (a == b)%Q.
Proof. unfold Qeqb. destruct (Qcompare_spec a b); split; (discriminate || lra || reflexivity). Qed.

Lemma Qcompare_pos a : (0 < a)%Q → (a ?= 0)%Q = Gt.
Proof. intros H. now apply Qgt_alt. Qed.

(** Turn boolean comparisons in the context into order facts. *)
Ltac qprops :=
  repeat match goal with
  | H : Qltb _ _ = true |- _ => apply Qltb_true in H
  | H : Qltb _ _ = false |- _ => apply Qltb_false in H
  | H : Qleb _ _ = true |- _ => apply Qleb_true in H
  | H : Qleb _ _ = false |- _ => apply Qleb_false in H
  | H : Qeqb _ _ = true |- _ => apply Qeqb_true in H
  | H : Qeqb _ _ = false |- _ => apply Qeqb_false in H
  | |- Qltb _ _ = true => apply Qltb_true
  | |- Qltb _ _ = false => apply Qltb_false
  | |- Qleb _ _ = true => apply Qleb_true
  | |- Qleb _ _ = false => apply Qleb_false
  | |- Qeqb _ _ = true => apply Qeqb_true
  | |- Qeqb _ _ = false => apply Qeqb_false
  end.

(** Case analysis on every comparison of rationals in sight. *)
Ltac qcases :=
  repeat match goal with
  | |- context [Qltb ?a ?b] =>
      let E := fresh "E" in destruct (Qltb a b) eqn:E; rewrite ?E in *
  | |- context [Qleb ?a ?b] =>
      let E := fresh "E" in destruct (Qleb a b) eqn:E; rewrite ?E in *
  | |- context [Qeqb ?a ?b] =>
      let E := fresh "E" in destruct (Qeqb a b) eqn:E; rewrite ?E in *
  | H : context [if Qltb ?a ?b then _ else _] |- _ =>
      let E := fresh "E" in destruct (Qltb a b) eqn:E; rewrite ?E in *
  | H : context [if Qleb ?a ?b then _ else _] |- _ =>
      let E := fresh "E" in destruct (Qleb a b) eqn:E; rewrite ?E in *
  | |- context [(?a ?= ?b)%Q] =>
      let E := fresh "E" in destruct (Qcompare_spec a b) as [E|E|E]
  end; qprops.

(** Case analysis on the condition of the first conditional of the goal. *)
Ltac if_case :=
  match goal with
  | |- context [if ?b then _ else _] => destruct b eqn:?
  end.

(** ** Doubles *)

Lemma deq_refl x : x =d= x.
Proof. destruct x; simpl; auto; reflexivity. Qed.

Lemma deq_sym x y : x =d= y → y =d= x.
Proof. destruct x, y; simpl; auto. intros H. now symmetry. Qed.

Lemma deq_trans x y z : x =d= y → y =d= z → x =d= z.
Proof. destruct x, y, z; simpl; auto; try tauto. intros H1 H2. now rewrite H1. Qed.

#[export] Instance deq_equivalence : Equivalence deq.
Proof. split; [exact deq_refl | exact deq_sym | exact deq_trans]. Qed.

Lemma signed_inf_proper b x y : (x == y)%Q → signed_inf b x = signed_inf b y.
Proof. intros H. unfold signed_inf. now rewrite H. Qed.

#[export] Instance dadd_proper : Proper (deq ==> deq ==> deq) dadd.
Proof.
  intros [a| | |] [b| | |] H1 [c| | |] [d| | |] H2; simpl in *; auto; try tauto.
  now rewrite H1, H2.
Qed.

#[export] Instance dopp_proper : Proper (deq ==> deq) dopp.
Proof. intros [a| | |] [b| | |] H; simpl in *; auto. now rewrite H. Qed.

#[export] Instance dsub_proper : Proper (deq ==> deq ==> deq) dsub.
Proof. intros x y H1 z w H2. unfold dsub. now rewrite H1, H2. Qed.

#[export] Instance dmul_proper : Proper (deq ==> deq ==> deq) dmul.
Proof.
  intros [a| | |] [b| | |] H1 [c| | |] [d| | |] H2; simpl in *; auto; try tauto;
    try (rewrite (signed_inf_proper _ _ _ H1); apply deq_refl);
    try (rewrite (signed_inf_proper _ _ _ H2); apply deq_refl).
  now rewrite H1, H2.
Qed.



Lemma dadd_0_r x : (x + Fin 0)%D =d= x.
Proof. destruct x; simpl; auto. ring. Qed.

Lemma dadd_0_l x : (Fin 0 + x)%D =d= x.
Proof. destruct x; simpl; auto. ring. Qed.

Lemma isfinite_Fin x : isfinite x = true → ∃ q, x = Fin q.
Proof. destruct x; try discriminate. eauto. Qed.

Lemma ddiv_Fin a p : (0 < p)%Q → (Fin a / Fin p)%D = Fin (a / p).
Proof. intros H. simpl. now rewrite Qcompare_pos. Qed.

(** The price test of the instrument loop and the one of the valuation loop
    are complementary. *)
Lemma skip_price_valuation px :
  skip_price px = negb ((px >? Fin 0)%D && isfinite px).
Proof.
  unfold skip_price, dgt. destruct px; simpl; auto.
  qcases; auto; lra.
Qed.

Lemma skip_price_false price :
  skip_price price = false → ∃ p, price = Fin p ∧ (0 < p)%Q.
Proof.
  unfold skip_price. destruct price; simpl; try discriminate.
  rewrite orb_false_r. intros H. qprops. eauto.
Qed.


(** [std::min(sig, 1.0)] of a positive signal is a fraction in (0, 1]. *)
Lemma dmin_signal sig :
  (sig >? Fin 0)%D = true →
  ∃ f, dmin sig (Fin 1) = Fin f ∧ (0 < f <= 1)%Q
       ∧ ((Fin 1 <=? sig)%D = true → (f == 1)%Q).
Proof.
  unfold dgt, dmin. destruct sig as [s| | |]; simpl; try discriminate.
  - intros H. qprops. destruct (Qltb 1 s) eqn:E; qprops.
    + exists 1%Q. repeat split; auto; lra.
    + exists s. repeat split; auto. intros H1. qprops. lra.
  - intros _. exists 1%Q. repeat split; auto; lra.
Qed.

(** [std::min(-sig, 1.0)] of a negative signal is a fraction in (0, 1]. *)
Lemma dmin_signal_neg sig :
  (sig <? Fin 0)%D = true →
  ∃ g, dmin (- sig) (Fin 1) = Fin g ∧ (0 < g <= 1)%Q
       ∧ ((sig <=? Fin (-1))%D = true → (g == 1)%Q).
Proof.
  intros H.
  destruct (dmin_signal (- sig)%D) as (g & Eg & Hg & H1).
  - unfold dgt. destruct sig; simpl in *; try discriminate; auto.
    qprops. lra.
  - exists g. repeat split; try tauto. intros H2. apply H1.
    destruct sig; simpl in *; try discriminate; auto. qprops. lra.
Qed.

(** The shares a sell disposes of. *)
Lemma sell_shares_Fin T S A sig g :
  dmin (- sig) (Fin 1) = Fin g →
  sell_shares {| total_shares := Fin T; sellable_shares := Fin S;
                 avg_cost := Fin A |} sig
  = Fin (if Qltb (T * g) S then T * g else S).
Proof.
  intros Eg. unfold sell_shares. rewrite Eg.
  cbn [total_shares sellable_shares dmul]. unfold dmin. cbn [dlt].
  now destruct (Qltb _ _).
Qed.

(** The locals of the buy branch on real numbers. *)
Lemma buy_locals a sig c p f :
  cash a = Fin c → (0 < p)%Q → dmin sig (Fin 1) = Fin f →
  target_shares a sig (Fin p) = Fin (c * f / p)
  ∧ buy_notional a sig (Fin p) = Fin (c * f / p * p)
  ∧ buy_cost a sig (Fin p)
    = Fin (c * f / p * p * (1 + 0.0003 + 0.0003)).
Proof.
  intros Hc Hp Hf.
  unfold buy_cost, buy_notional, target_shares, intent_cash.
  rewrite Hc, Hf. cbn [dmul]. rewrite ddiv_Fin by assumption.
  repeat split; reflexivity.
Qed.



(** ** Loops *)

Section Loops.
Context {S : Type} (body : Z → S → option S).

Lemma for_loop_app n m i s :
  for_loop (n + m) i body s
  = for_loop n i body s ≫= for_loop m (i + Z.of_nat n) body.
Proof.
  revert i s. induction n as [|n IH]; intros i s; simpl.
  - now rewrite Z.add_0_r.
  - destruct (body i s) as [s'|]; simpl; [|reflexivity].
    rewrite IH. do 2 f_equal. lia.
Qed.

(** Iterations that leave the state alone can be dropped. *)
Lemma for_loop_idle n i s :
  (∀ j, i ≤ j < i + Z.of_nat n → body j s = Some s) →
  for_loop n i body s = Some s.
Proof.
  revert i. induction n as [|n IH]; intros i H; simpl; [reflexivity|].
  rewrite H by lia. apply IH. intros j Hj. apply H. lia.
Qed.

(** A property kept by every iteration in range holds at the exit. *)
Lemma for_loop_invariant (P : S → Prop) n i s s' :
  (∀ j x y, i ≤ j < i + Z.of_nat n → P x → body j x = Some y → P y) →
  P s → for_loop n i body s = Some s' → P s'.
Proof.
  revert i s. induction n as [|n IH]; intros i s Hstep Hs; simpl.
  - now intros [= <-].
  - destruct (body i s) as [x|] eqn:E; [|discriminate].
    apply IH.
    + intros j y z Hj. apply Hstep. lia.
    + apply (Hstep i s x); [lia|assumption|assumption].
Qed.

(** The loop runs to its end when every iteration in range has a result
    on the states that satisfy the invariant. *)
Lemma for_loop_total (P : S → Prop) n i s :
  (∀ j x, i ≤ j < i + Z.of_nat n → P x → ∃ y, body j x = Some y ∧ P y) →
  P s → ∃ s', for_loop n i body s = Some s' ∧ P s'.
Proof.
  revert i s. induction n as [|n IH]; intros i s Hstep Hs; simpl.
  - eauto.
  - destruct (Hstep i s) as (x & -> & Hx); [lia|assumption|].
    apply IH; [|assumption]. intros j y Hj. apply Hstep. lia.
Qed.


(** The trace ends in the state the loop returns. *)
Lemma for_trace_last n i s s' :
  for_loop n i body s = Some s' → last (s :: for_trace n i body s) = Some s'.
Proof.
  revert i s. induction n as [|n IH]; intros i s; simpl.
  - now intros [= <-].
  - destruct (body i s) as [x|] eqn:E; [|discriminate].
    intros H. apply IH in H. now rewrite last_cons_cons.
Qed.
End Loops.

(** ** The operations of the loop on a well-formed account *)

Lemma finite_position_Fin pos :
  finite_position pos →
  ∃ T S A, pos = {| total_shares := Fin T; sellable_shares := Fin S;
                    avg_cost := Fin A |}.
Proof.
  destruct pos as [[T| | |] [S| | |] [A| | |]]; intros (H1 & H2 & H3);
    try discriminate.
  eauto.
Qed.

Lemma finite_position0 : finite_position Position0.
Proof. repeat split. Qed.

Lemma finite_default (m : gmap Z Position) key :
  map_Forall (λ _ pos, finite_position pos) m →
  finite_position (default Position0 (m !! key)).
Proof.
  intros H. destruct (m !! key) as [pos|] eqn:E; simpl.
  - exact (H key pos E).
  - exact finite_position0.
Qed.






(** ** The position invariant *)

Lemma position_inv_Fin T S A :
  position_inv {| total_shares := Fin T; sellable_shares := Fin S;
                  avg_cost := Fin A |}
  ↔ (0 <= S)%Q ∧ (S <= T)%Q ∧ ((T == 0)%Q → (S == 0)%Q ∧ (A == 0)%Q).
Proof.
  unfold position_inv. cbn [total_shares sellable_shares avg_cost dle deqb].
  rewrite !Qleb_true, !Qeqb_true. tauto.
Qed.










(** ** Properties kept along a run *)

Section RunInvariant.
Variable P : Account → Prop.
Variables p s : array_t.
Hypothesis unlock_keeps : ∀ a, P a → P (unlock a).
Hypothesis step_keeps :
  ∀ t stock a a', P a → instrument_step p s t stock a = Some a' → P a'.

Lemma trading_day_keeps n t a a' :
  P a → trading_day p s n t a = Some a' → P a'.
Proof.
  intros Ha. unfold trading_day, instrument_pass.
  apply for_loop_invariant with (P := P).
  - intros j x y _. apply step_keeps.
  - now apply unlock_keeps.
Qed.

Lemma day_step_keeps n t st st' :
  P st.1 → day_step p s n t st = Some st' → P st'.1.
Proof.
  intros Ha. unfold day_step.
  destruct (trading_day p s n t st.1) as [a|] eqn:E; [|discriminate].
  simpl. destruct (valuation p t a); [|discriminate]. simpl.
  intros [= <-]. simpl. now apply (trading_day_keeps n t st.1).
Qed.




Lemma run_keeps engine engine' equity :
  P (account_ engine) → run engine p s = Returned engine' equity →
  P (account_ engine').
Proof.
  intros Ha. unfold run.
  if_case; [discriminate|]. if_case; [discriminate|].
  destruct (for_loop _ _ _ _) as [[a eq]|] eqn:E; [|discriminate].
  intros [= <- _]. simpl.
  apply (for_loop_invariant _ (λ st, P st.1) _ _ (account_ engine, []) (a, eq)
           (λ j x y _, day_step_keeps _ j x y) Ha E).
Qed.
End RunInvariant.



(** The accounts of [run_points] are those of the run: the list ends in the
    account the run leaves. *)
Lemma day_step_account p s n t a equity0 a' equity' :
  day_step p s n t (a, equity0) = Some (a', equity') →
  trading_day p s n t a = Some a'
  ∧ ∃ e, day_step p s n t (a, []) = Some (a', [e]).
Proof.
  unfold day_step. cbn [fst snd].
  destruct (trading_day p s n t a) as [a1|]; [|discriminate].
  cbn [mbind option_bind].
  destruct (valuation p t a1) as [e|]; [|discriminate].
  cbn [mbind option_bind]. intros [= <- _]. eauto.
Qed.

Lemma days_points_last p s n count t a equity0 a' equity' :
  for_loop count t (day_step p s n) (a, equity0) = Some (a', equity') →
  last (a :: days_points count t p s n a) = Some a'.
Proof.
  revert t a equity0. induction count as [|count IH]; intros t a equity0.
  - cbn. now intros [= <- _].
  - cbn [for_loop days_points].
    destruct (day_step p s n t (a, equity0)) as [[a1 equity1]|] eqn:E;
      [|discriminate].
    intros Hrest. apply IH in Hrest.
    destruct (day_step_account _ _ _ _ _ _ _ _ E) as (Hday & e & ->).
    unfold day_points.
    apply (for_trace_last (instrument_step p s t)) in Hday.
    rewrite app_comm_cons, last_app.
    change (last (a :: unlock a :: ?l)) with (last (unlock a :: l)).
    rewrite Hday.
    destruct (days_points count (t + 1) p s n a1) as [|x l] eqn:El.
    + cbn in Hrest. cbn. exact Hrest.
    + rewrite last_cons_cons in Hrest. now rewrite Hrest.
Qed.

Lemma run_points_last engine prices signals engine' equity :
  run engine prices signals = Returned engine' equity →
  last (account_ engine :: run_points engine prices signals)
  = Some (account_ engine').
Proof.
  intros H. unfold run_points. rewrite H. revert H. unfold run.
  if_case; [discriminate|]. if_case; [discriminate|].
  destruct (for_loop _ _ _ _) as [[a eq]|] eqn:E; [|discriminate].
  intros [= <- _]. cbn [account_].
  exact (days_points_last _ _ _ _ _ _ _ _ _ E).
Qed.

(** ** Cash *)

Lemma buy_rejected price sig stock a :
  buy_accepted price sig a = false → buy price sig stock a = a.
Proof.
  unfold buy_accepted, buy. intros H.
  destruct (target_shares a sig price <=? Fin 0)%D; [reflexivity|].
  destruct (buy_cost a sig price >? cash a)%D; [reflexivity|discriminate].
Qed.

Lemma buy_filled price sig stock a :
  buy_accepted price sig a = true →
  buy price sig stock a
  = {| cash := (cash a - buy_cost a sig price)%D;
       positions :=
         <[static_cast_int stock :=
             bought (default Position0 (positions a !! static_cast_int stock))
                    (target_shares a sig price) (buy_notional a sig price)]>
           (positions a) |}.
Proof.
  unfold buy_accepted, buy. intros H.
  destruct (target_shares a sig price <=? Fin 0)%D; [discriminate|].
  destruct (buy_cost a sig price >? cash a)%D; [discriminate|reflexivity].
Qed.






(** ** The shape check *)

Lemma shape_eq_2d (p s : array_t) :
  ndim p = 2 → ndim s = 2 →
  shape_at p 0 = shape_at s 0 → shape_at p 1 = shape_at s 1 →
  shape p = shape s.
Proof.
  unfold ndim, shape_at.
  destruct (shape p) as [|a [|b [|? ?]]]; simpl; try lia.
  destruct (shape s) as [|c [|d [|? ?]]]; simpl; try lia.
  intros _ _ -> ->. reflexivity.
Qed.

(** C2. When one of the arrays is not two-dimensional, or the shapes differ,
    [run] throws one of the two errors of the shape check: the engine it
    leaves is the engine it was given, there is no equity vector, and the
    run went through no account at all. *)
Theorem run_shape_mismatch (engine : ChronoEngine) (prices signals : array_t) :
  ndim prices ≠ 2 ∨ ndim signals ≠ 2 ∨ shape prices ≠ shape signals →
  (∃ e, ShapeMismatch e ∧ run engine prices signals = Thrown engine e)
  ∧ run_points engine prices signals = [].
Proof.
  intros H.
  assert (∃ e, ShapeMismatch e ∧ run engine prices signals = Thrown engine e)
    as (e & He & E).
  { unfold run, ShapeMismatch.
    destruct (ndim prices =? 2) eqn:E1; [|simpl; eauto].
    destruct (ndim signals =? 2) eqn:E2; [|simpl; eauto].
    simpl.
    destruct (shape_at prices 0 =? shape_at signals 0) eqn:E3; [|simpl; eauto].
    destruct (shape_at prices 1 =? shape_at signals 1) eqn:E4; [|simpl; eauto].
    exfalso.
    apply Z.eqb_eq in E1, E2, E3, E4.
    destruct H as [H|[H|H]]; [tauto|tauto|].
    apply H. now apply shape_eq_2d. }
  split; [eauto|]. unfold run_points. now rewrite E.
Qed.

(** ** Invalid prices *)



(** ** Buys and the T+1 rule *)


Lemma trade_buy price sig stock a :
  (sig >? Fin 0)%D = true → trade price sig stock a = buy price sig stock a.
Proof. intros H. unfold trade. now rewrite H. Qed.

Lemma trade_sell price sig stock a :
  (sig <? Fin 0)%D = true → trade price sig stock a = sell price sig stock a.
Proof.
  intros H. unfold trade.
  assert ((sig >? Fin 0)%D = false) as ->; [|now rewrite H].
  unfold dgt. destruct sig; simpl in *; try discriminate; auto.
  qprops. lra.
Qed.



(** ** Closing a position *)

(** C8. A position whose shares are all sellable, sold on a signal of -1 or
    below at an accepted price: the sell disposes of the total shares, the
    position is left with no shares, no sellable shares and no cost, and
    the cash grows by [total_shares * price * (1 - commission - slippage)]. *)
Theorem sell_all_closes_position
    (price sig : double) (stock : Z) (a : Account) (pos : Position) :
  positions a !! static_cast_int stock = Some pos →
  isfinite (total_shares pos) = true →
  (total_shares pos >? Fin 0)%D = true →
  (sellable_shares pos =? total_shares pos)%D = true →
  skip_price price = false →
  (sig <=? Fin (-1))%D = true →
  let a' := trade price sig stock a in
  sell_shares pos sig =d= total_shares pos
  ∧ positions a' !! static_cast_int stock
    = Some {| total_shares := Fin 0; sellable_shares := Fin 0;
              avg_cost := Fin 0 |}
  ∧ cash a'
    =d= (cash a + total_shares pos * price
                  * (Fin 1 - commission - slippage))%D.
Proof.
  intros Hk Hfin Hpos Heq Hp Hs a'.
  assert ((sig <? Fin 0)%D = true) as Hneg.
  { destruct sig; simpl in *; try discriminate; auto. qprops. lra. }
  destruct (dmin_signal_neg _ Hneg) as (g & Eg & Hg & Hg1).
  specialize (Hg1 Hs).
  destruct (skip_price_false _ Hp) as (p & -> & Hp0).
  destruct pos as [[T| | |] [S| | |] A]; try discriminate.
  unfold dgt in Hpos. cbn in Hpos, Heq. qprops.
  assert (sell_shares {| total_shares := Fin T; sellable_shares := Fin S;
                         avg_cost := A |} sig = Fin S) as Esh.
  { unfold sell_shares. rewrite Eg. cbn [total_shares sellable_shares dmul].
    unfold dmin. cbn [dlt].
    assert (Qltb (T * g) S = false) as ->; [|reflexivity].
    qprops. rewrite Hg1. lra. }
  subst a'. rewrite trade_sell by assumption.
  unfold sell. rewrite Hk, Esh. cbn [dle].
  assert (Qleb S 0 = false) as -> by (qprops; lra).
  cbn [positions cash total_shares].
  split; [exact Heq|]. split.
  - rewrite lookup_insert_eq. unfold sold.
    cbn [total_shares sellable_shares dsub dadd dopp dle].
    assert (Qleb (T + - S) 0 = true) as -> by (qprops; lra).
    reflexivity.
  - unfold sell_proceeds.
    assert (Fin S =d= Fin T) as -> by exact Heq. reflexivity.
Qed.

(** ** Full-cash buys *)


(** ** Keys of the position map and unchecked reads *)

Lemma unchecked_in_range a i j :
  0 ≤ i < shape_at a 0 → 0 ≤ j < shape_at a 1 →
  unchecked a i j = Some (data a i j).
Proof.
  intros Hi Hj. unfold unchecked.
  assert ((0 <=? i) && (i <? shape_at a 0) && (0 <=? j) && (j <? shape_at a 1)
          = true) as ->; [|reflexivity].
  rewrite !andb_true_iff. repeat split; lia.
Qed.

Lemma unchecked_outside_columns a i j :
  ¬ 0 ≤ j < shape_at a 1 → unchecked a i j = None.
Proof.
  intros Hj. unfold unchecked.
  assert ((0 <=? i) && (i <? shape_at a 0) && (0 <=? j) && (j <? shape_at a 1)
          = false) as ->; [|reflexivity].
  rewrite !andb_false_iff. lia.
Qed.

Lemma static_cast_int_small x : 0 ≤ x < INT_COLUMNS → static_cast_int x = x.
Proof.
  unfold INT_COLUMNS, static_cast_int. intros H.
  rewrite Z.mod_small by lia. lia.
Qed.

(** A trade writes at most the position of its own key, and removes none. *)
Lemma trade_lookup_other price sig stock a key :
  key ≠ static_cast_int stock →
  positions (trade price sig stock a) !! key = positions a !! key.
Proof.
  intros Hne. unfold trade.
  destruct (sig >? Fin 0)%D.
  { unfold buy. if_case; [reflexivity|]. if_case; [reflexivity|].
    cbn [positions]. now rewrite lookup_insert_ne. }
  destruct (sig <? Fin 0)%D; [|reflexivity].
  unfold sell.
  destruct (positions a !! static_cast_int stock); [|reflexivity].
  if_case; [reflexivity|]. cbn [positions]. now rewrite lookup_insert_ne.
Qed.

Lemma trade_lookup_persists price sig stock a key :
  is_Some (positions a !! key) →
  is_Some (positions (trade price sig stock a) !! key).
Proof.
  intros Hk.
  destruct (decide (key = static_cast_int stock)) as [->|Hne];
    [|now rewrite trade_lookup_other].
  unfold trade.
  destruct (sig >? Fin 0)%D.
  { unfold buy. if_case; [assumption|]. if_case; [assumption|].
    cbn [positions]. rewrite lookup_insert_eq. eauto. }
  destruct (sig <? Fin 0)%D; [|assumption].
  unfold sell. destruct Hk as [pos Hk]. rewrite Hk.
  if_case; [rewrite Hk; eauto|].
  cbn [positions]. rewrite lookup_insert_eq. eauto.
Qed.

Lemma unlock_lookup a key :
  positions (unlock a) !! key = unlock_position <$> positions a !! key.
Proof. unfold unlock. cbn [positions]. apply lookup_fmap. Qed.

Lemma unlock_keys n a : keys_in_range n a → keys_in_range n (unlock a).
Proof.
  intros H key pos. rewrite unlock_lookup.
  destruct (positions a !! key) as [pos0|] eqn:E; [|discriminate].
  intros _. exact (H key pos0 E).
Qed.

Lemma trade_keys n price sig stock a :
  n ≤ INT_COLUMNS → 0 ≤ stock < n →
  keys_in_range n a → keys_in_range n (trade price sig stock a).
Proof.
  intros Hn Hs H key pos Hk.
  destruct (decide (key = static_cast_int stock)) as [->|Hne].
  - rewrite static_cast_int_small by lia. assumption.
  - rewrite trade_lookup_other in Hk by assumption. exact (H key pos Hk).
Qed.

Section SameShape.
Variables (p s : array_t).
Hypothesis same_rows : shape_at p 0 = shape_at s 0.
Hypothesis same_columns : shape_at p 1 = shape_at s 1.

(** Inside the index space the iteration reads both arrays in bounds. *)
Lemma instrument_step_in_range t stock a :
  0 ≤ t < shape_at p 0 → 0 ≤ stock < shape_at p 1 →
  instrument_step p s t stock a
  = Some (if skip_price (data p t stock) then a
          else trade (data p t stock) (data s t stock) stock a).
Proof.
  intros Ht Hs. unfold instrument_step.
  rewrite (unchecked_in_range p t stock) by assumption. simpl.
  if_case; [reflexivity|].
  rewrite (unchecked_in_range s t stock) by lia. reflexivity.
Qed.

Lemma instrument_step_keys t stock a :
  shape_at p 1 ≤ INT_COLUMNS →
  0 ≤ t < shape_at p 0 → 0 ≤ stock < shape_at p 1 →
  keys_in_range (shape_at p 1) a →
  ∃ a', instrument_step p s t stock a = Some a'
        ∧ keys_in_range (shape_at p 1) a'.
Proof.
  intros Hn Ht Hs Hk. rewrite instrument_step_in_range by assumption.
  eexists. split; [reflexivity|].
  if_case; [assumption|]. now apply trade_keys.
Qed.

Lemma trading_day_keys t a :
  shape_at p 1 ≤ INT_COLUMNS → 0 ≤ t < shape_at p 0 →
  keys_in_range (shape_at p 1) a →
  ∃ a', trading_day p s (shape_at p 1) t a = Some a'
        ∧ keys_in_range (shape_at p 1) a'.
Proof.
  intros Hn Ht Hk. unfold trading_day, instrument_pass.
  apply for_loop_total.
  - intros j x Hj Hx. apply instrument_step_keys; try assumption. lia.
  - now apply unlock_keys.
Qed.
End SameShape.

(** ** Valuation *)

Lemma dadd_shuffle c r v : (c + r + v)%D =d= (c + (v + r))%D.
Proof. destruct c, r, v; simpl; auto. ring. Qed.

Section Valuation.
Variables (p : array_t) (t : Z).
Hypothesis day_in_range : 0 ≤ t < shape_at p 0.

(** Over keys that are column indices the valuation loop adds up the
    values of the positions. *)
Lemma valuation_list_value (l : list (Z * Position)) (c : double) :
  Forall (λ kv, 0 ≤ kv.1 < shape_at p 1) l →
  ∃ e, foldr (uncurry (valuation_step p t)) (Some c) l = Some e
       ∧ e =d= (c + foldr (λ kv acc, position_value p t kv.1 kv.2 + acc)
                          (Fin 0) l)%D.
Proof.
  induction 1 as [|[key pos] l Hk _ (e & IH & He)]; cbn [foldr].
  - exists c. split; [reflexivity|]. symmetry. apply dadd_0_r.
  - rewrite IH. cbn [uncurry fst snd]. unfold valuation_step.
    cbn -[dgt isfinite]. rewrite unchecked_in_range by assumption.
    cbn -[dgt isfinite]. eexists. split; [reflexivity|].
    unfold position_value. fold (skip_price (data p t key)).
    rewrite skip_price_valuation.
    destruct ((data p t key >? Fin 0)%D && isfinite (data p t key));
      cbn [negb].
    + rewrite He. apply dadd_shuffle.
    + rewrite He. apply dadd_proper; [reflexivity|].
      symmetry. apply dadd_0_l.
Qed.

(** One key outside the columns and the loop reads out of bounds. *)
Lemma valuation_list_outside (l : list (Z * Position)) (c : double) key pos :
  (key, pos) ∈ l → ¬ 0 ≤ key < shape_at p 1 →
  foldr (uncurry (valuation_step p t)) (Some c) l = None.
Proof.
  intros Hin Hk. induction l as [|[k x] l IH]; [now apply elem_of_nil in Hin|].
  cbn [foldr uncurry fst snd]. apply elem_of_cons in Hin as [[= <- <-]|Hin].
  - unfold valuation_step.
    destruct (foldr _ _ l); [|reflexivity]. simpl.
    now rewrite unchecked_outside_columns.
  - now rewrite IH.
Qed.

Lemma valuation_value a :
  keys_in_range (shape_at p 1) a →
  ∃ e, valuation p t a = Some e ∧ e =d= equity_value p t a.
Proof.
  intros Hk. unfold valuation, equity_value, holdings_value.
  rewrite map_fold_foldr. apply valuation_list_value.
  apply map_Forall_to_list in Hk.
  eapply Forall_impl; [exact Hk|]. now intros [key pos].
Qed.

Lemma valuation_outside a key :
  is_Some (positions a !! key) → ¬ 0 ≤ key < shape_at p 1 →
  valuation p t a = None.
Proof.
  intros [pos Hk] Hout. unfold valuation. rewrite map_fold_foldr.
  apply (valuation_list_outside _ _ key pos); [|assumption].
  now apply elem_of_map_to_list.
Qed.
End Valuation.

(** With column indices that fit [int], the position of an instrument
    whose price is skipped is the same after the whole instrument pass. *)
Lemma skipped_position_untouched_by_pass p s t stock price a a' :
  shape_at p 1 ≤ INT_COLUMNS → 0 ≤ stock < shape_at p 1 →
  unchecked p t stock = Some price → skip_price price = true →
  instrument_pass p s (shape_at p 1) t a = Some a' →
  positions a' !! static_cast_int stock = positions a !! static_cast_int stock.
Proof.
  intros Hn Hs Hr Hskip. unfold instrument_pass.
  apply (for_loop_invariant _
           (λ x, positions x !! static_cast_int stock
                 = positions a !! static_cast_int stock)); [|reflexivity].
  intros j x y Hj Hx. unfold instrument_step.
  destruct (decide (j = stock)) as [->|Hne].
  - rewrite Hr. cbn [mbind option_bind]. rewrite Hskip. now intros [= <-].
  - destruct (unchecked p t j) as [pj|]; [|discriminate].
    cbn [mbind option_bind].
    destruct (skip_price pj); [now intros [= <-]|].
    destruct (unchecked s t j) as [sj|]; [|discriminate].
    cbn [mbind option_bind]. intros [= <-].
    rewrite trade_lookup_other; [assumption|].
    rewrite !static_cast_int_small by lia. congruence.
Qed.

(** ** The day loop *)

Section DayLoop.
Variables (p s : array_t).
Hypothesis same_rows : shape_at p 0 = shape_at s 0.
Hypothesis same_columns : shape_at p 1 = shape_at s 1.
Hypothesis columns_fit : shape_at p 1 ≤ INT_COLUMNS.

Lemma day_loop_series count t0 a equity0 :
  0 ≤ t0 → (count ≠ O → t0 + Z.of_nat count ≤ shape_at p 0) →
  keys_in_range (shape_at p 1) a →
  ∃ a' equity,
    for_loop count t0 (day_step p s (shape_at p 1)) (a, equity0)
    = Some (a', equity0 ++ equity)
    ∧ length equity = count
    ∧ keys_in_range (shape_at p 1) a'
    ∧ ∀ i, (i < count)%nat →
        ∃ a_i e_i,
          for_loop (Datatypes.S i) t0 (trading_day p s (shape_at p 1)) a = Some a_i
          ∧ equity !! i = Some e_i
          ∧ e_i =d= equity_value p (t0 + Z.of_nat i) a_i.
Proof.
  revert t0 a equity0.
  induction count as [|count IH]; intros t0 a equity0 Ht0 Hend Hk.
  - exists a, []. cbn [for_loop]. rewrite app_nil_r.
    split; [reflexivity|]. split; [reflexivity|]. split; [assumption|].
    intros i Hi. lia.
  - destruct (trading_day_keys p s same_rows same_columns t0 a)
      as (a1 & Ea1 & Hk1); [assumption|lia|assumption|].
    assert (0 ≤ t0 < shape_at p 0) as Ht0' by lia.
    destruct (valuation_value p t0 Ht0' a1 Hk1) as (e1 & Ee1 & He1).
    destruct (IH (t0 + 1) a1 (equity0 ++ [e1])) as (a' & eq & E & Hlen & Hk' & Hi);
      [lia|lia|assumption|].
    exists a', (e1 :: eq).
    split; [|split; [|split]].
    + cbn [for_loop]. unfold day_step at 1. cbn [fst snd].
      rewrite Ea1. cbn [mbind option_bind].
      rewrite Ee1. cbn [mbind option_bind].
      rewrite E. now rewrite <- app_assoc.
    + cbn [length]. now rewrite Hlen.
    + assumption.
    + intros [|i] Hlt.
      * exists a1, e1. cbn [for_loop]. rewrite Ea1.
        split; [reflexivity|]. split; [reflexivity|].
        now rewrite Z.add_0_r.
      * destruct (Hi i) as (a_i & e_i & H1 & H2 & H3); [lia|].
        exists a_i, e_i.
        split; [|split; [exact H2|]].
        -- change (for_loop (Datatypes.S (Datatypes.S i)) t0
                     (trading_day p s (shape_at p 1)) a)
             with (match trading_day p s (shape_at p 1) t0 a with
                   | Some x => for_loop (Datatypes.S i) (t0 + 1)
                                 (trading_day p s (shape_at p 1)) x
                   | None => None
                   end).
           now rewrite Ea1.
        -- replace (t0 + Z.of_nat (Datatypes.S i)) with (t0 + 1 + Z.of_nat i)
             by lia.
           exact H3.
Qed.
End DayLoop.

Lemma run_checks_passed engine prices signals :
  ndim prices = 2 → ndim signals = 2 → shape prices = shape signals →
  run engine prices signals
  = match for_loop (Z.to_nat (shape_at prices 0)) 0
            (day_step prices signals (shape_at prices 1))
            (account_ engine, []) with
    | Some (a, equity) => Returned {| account_ := a |} equity
    | None => OutOfBounds
    end.
Proof.
  intros H1 H2 H3. unfold run. rewrite H1, H2. cbn [Z.eqb Pos.eqb negb orb].
  unfold shape_at. rewrite H3, !Z.eqb_refl. reflexivity.
Qed.

(** C1, amended. For two-dimensional matrices of one shape with at most
    2^31 columns, and a starting account whose keys are all column indices,
    [run] returns; the equity vector has one entry per day; the entry of
    day [t] is the value, at the prices of day [t], of the account as the
    trades of days 0 to [t] leave it: its cash plus, over all positions,
    the total shares times the price, or nothing for a price that is not a
    positive finite number. *)
Theorem run_equity_series (engine : ChronoEngine) (prices signals : array_t) :
  ndim prices = 2 → ndim signals = 2 → shape prices = shape signals →
  shape_at prices 1 ≤ INT_COLUMNS →
  keys_in_range (shape_at prices 1) (account_ engine) →
  ∃ engine' equity,
    run engine prices signals = Returned engine' equity
    ∧ length equity = Z.to_nat (shape_at prices 0)
    ∧ ∀ t, 0 ≤ t < shape_at prices 0 →
        ∃ a_t e_t,
          account_after prices signals (account_ engine) t = Some a_t
          ∧ equity !! Z.to_nat t = Some e_t
          ∧ e_t =d= equity_value prices t a_t.
Proof.
  intros H1 H2 H3 Hn Hk.
  rewrite run_checks_passed by assumption.
  assert (shape_at prices 0 = shape_at signals 0) as Hr
    by (unfold shape_at; now rewrite H3).
  assert (shape_at prices 1 = shape_at signals 1) as Hc
    by (unfold shape_at; now rewrite H3).
  destruct (day_loop_series prices signals Hr Hc Hn
              (Z.to_nat (shape_at prices 0)) 0 (account_ engine) [])
    as (a' & equity & E & Hlen & _ & Hi); [lia|lia|assumption|].
  rewrite E. cbn [app].
  exists {| account_ := a' |}, equity.
  split; [reflexivity|]. split; [exact Hlen|].
  intros t Ht.
  destruct (Hi (Z.to_nat t)) as (a_t & e_t & Ha & He & Hv); [lia|].
  exists a_t, e_t. unfold account_after.
  replace (Z.to_nat (t + 1)) with (Datatypes.S (Z.to_nat t)) by lia.
  split; [exact Ha|]. split; [exact He|].
  replace (0 + Z.of_nat (Z.to_nat t)) with t in Hv by lia. exact Hv.
Qed.

(** ** Positions outlive a run *)

Lemma instrument_step_persists p s t stock a a' key :
  is_Some (positions a !! key) → instrument_step p s t stock a = Some a' →
  is_Some (positions a' !! key).
Proof.
  intros Hk. unfold instrument_step.
  destruct (unchecked p t stock) as [price|]; [|discriminate]. simpl.
  destruct (skip_price price); [now intros [= <-]|].
  destruct (unchecked s t stock) as [sig|]; [|discriminate]. simpl.
  intros [= <-]. now apply trade_lookup_persists.
Qed.

Lemma unlock_persists a key :
  is_Some (positions a !! key) → is_Some (positions (unlock a) !! key).
Proof. intros [pos Hk]. rewrite unlock_lookup, Hk. simpl. eauto. Qed.

(** A day started with a key outside the columns ends in an out-of-bounds
    read. *)
Lemma day_step_outside p s n t st key :
  is_Some (positions st.1 !! key) → ¬ 0 ≤ key < shape_at p 1 →
  day_step p s n t st = None.
Proof.
  intros Hk Hout. unfold day_step.
  destruct (trading_day p s n t st.1) as [a|] eqn:E; [|reflexivity].
  simpl. rewrite (valuation_outside p t a key); [reflexivity| |assumption].
  apply (trading_day_keeps (λ x, is_Some (positions x !! key)) p s) in E;
    [assumption| | |assumption].
  - intros x. apply unlock_persists.
  - intros t' stock x y Hx. now apply instrument_step_persists.
Qed.

(** A first run on two columns buys the second instrument; a second run of
    the same engine on one column reads out of bounds. *)
Lemma narrower_second_run :
  ∃ engine equity,
    run (ChronoEngine_new (Fin 10000))
        (matrix [[Fin 10; Fin 10]]) (matrix [[Fin 0; Fin 0.5]])
    = Returned engine equity
    ∧ run engine (matrix [[Fin 10]]) (matrix [[Fin 0]]) = OutOfBounds.
Proof. eexists _, _. split; [vm_compute; reflexivity|]. vm_compute. reflexivity. Qed.

(** C1 as stated fails: matrices of one two-dimensional shape and a
    starting account, left by an earlier run, on which [run] does not
    return. *)
Lemma run_stale_position_no_series :
  ∃ engine prices signals,
    ndim prices = 2 ∧ ndim signals = 2 ∧ shape prices = shape signals
    ∧ ∀ engine' equity, run engine prices signals ≠ Returned engine' equity.
Proof.
  destruct narrower_second_run as (engine & equity & _ & H).
  exists engine, (matrix [[Fin 10]]), (matrix [[Fin 0]]).
  repeat split. intros engine' equity'. now rewrite H.
Qed.

(** C10, amended. The valuation loop reads the price matrix at every key
    of the position map, unchecked: on a day of the matrix it has a result
    exactly when every key is a column index.  With at most 2^31 columns,
    a key that is in the map after an iteration of the instrument loop was
    there before or is a column index; a run removes no key; so a run of
    an engine on matrices with fewer columns than an earlier run can read
    out of bounds, and a run over at least one day stays in bounds exactly
    when every key of the starting account is a column index. *)
Theorem valuation_in_bounds_iff_keys_in_range :
  (∀ p t a,
      0 ≤ t < shape_at p 0 →
      is_Some (valuation p t a) ↔ keys_in_range (shape_at p 1) a)
  ∧ (∀ p s t stock a a' key,
      shape_at p 1 ≤ INT_COLUMNS → 0 ≤ stock < shape_at p 1 →
      instrument_step p s t stock a = Some a' →
      is_Some (positions a' !! key) →
      is_Some (positions a !! key) ∨ 0 ≤ key < shape_at p 1)
  ∧ (∀ engine prices signals engine' equity key,
      run engine prices signals = Returned engine' equity →
      is_Some (positions (account_ engine) !! key) →
      is_Some (positions (account_ engine') !! key))
  ∧ (∃ engine equity prices signals prices' signals',
      run (ChronoEngine_new (Fin 10000)) prices signals
      = Returned engine equity
      ∧ shape_at prices' 1 < shape_at prices 1
      ∧ run engine prices' signals' = OutOfBounds)
  ∧ (∀ engine prices signals,
      ndim prices = 2 → ndim signals = 2 → shape prices = shape signals →
      shape_at prices 1 ≤ INT_COLUMNS → 0 < shape_at prices 0 →
      run engine prices signals ≠ OutOfBounds
      ↔ keys_in_range (shape_at prices 1) (account_ engine)).
Proof.
  split; [|split; [|split; [|split]]].
  - intros p t a Ht. split.
    + intros Hv.
      destruct (decide (keys_in_range (shape_at p 1) a)) as [|Hn];
        [assumption|].
      apply map_not_Forall in Hn; [|intros; apply _].
      destruct Hn as (key & pos & Hk & Hout).
      rewrite (valuation_outside p t a key) in Hv; eauto.
      now destruct Hv.
    + intros Hk. destruct (valuation_value p t Ht a Hk) as (e & -> & _). eauto.
  - intros p s t stock a a' key Hn Hs Hstep Hk.
    destruct (decide (key = static_cast_int stock)) as [->|Hne].
    + right. now rewrite static_cast_int_small by lia.
    + left. revert Hstep Hk. unfold instrument_step.
      destruct (unchecked p t stock) as [price|]; [|discriminate]. simpl.
      destruct (skip_price price); [now intros [= <-]|].
      destruct (unchecked s t stock) as [sig|]; [|discriminate]. simpl.
      intros [= <-]. now rewrite trade_lookup_other.
  - intros engine prices signals engine' equity key Hrun Hk.
    apply (run_keeps (λ x, is_Some (positions x !! key)) prices signals)
      with (engine := engine) (equity := equity); try assumption.
    + intros x. apply unlock_persists.
    + intros t' stock x y Hx. now apply instrument_step_persists.
  - destruct narrower_second_run as (engine & equity & H1 & H2).
    exists engine, equity, (matrix [[Fin 10; Fin 10]]),
      (matrix [[Fin 0; Fin 0.5]]), (matrix [[Fin 10]]), (matrix [[Fin 0]]).
    split; [exact H1|]. split; [reflexivity|exact H2].
  - intros engine prices signals H1 H2 H3 Hn Hd.
    rewrite run_checks_passed by assumption.
    assert (shape_at prices 0 = shape_at signals 0) as Hr
      by (unfold shape_at; now rewrite H3).
    assert (shape_at prices 1 = shape_at signals 1) as Hc
      by (unfold shape_at; now rewrite H3).
    split.
    + intros Hrun.
      destruct (decide (keys_in_range (shape_at prices 1) (account_ engine)))
        as [|Hnk]; [assumption|].
      apply map_not_Forall in Hnk; [|intros; apply _].
      destruct Hnk as (key & pos & Hk & Hout).
      exfalso. apply Hrun.
      destruct (Z.to_nat (shape_at prices 0)) as [|count] eqn:E; [lia|].
      cbn [for_loop].
      rewrite (day_step_outside _ _ _ _ _ key); [reflexivity| |assumption].
      cbn [fst]. eauto.
    + intros Hk.
      destruct (day_loop_series prices signals Hr Hc Hn
                  (Z.to_nat (shape_at prices 0)) 0 (account_ engine) [])
        as (a' & equity & E & _); [lia|lia|assumption|].
      rewrite E. discriminate.
Qed.

(** ** Two buys on one day *)








(** ** Column indices beyond [int] *)

(** When every column but the last leaves the account alone, the pass is
    the iteration of the last column. *)
Lemma instrument_pass_last_column p s n t a :
  0 < n →
  (∀ j, 0 ≤ j < n - 1 → instrument_step p s t j a = Some a) →
  instrument_pass p s n t a = instrument_step p s t (n - 1) a.
Proof.
  intros Hn Hidle. unfold instrument_pass.
  replace (Z.to_nat n) with (Z.to_nat (n - 1) + 1)%nat by lia.
  rewrite for_loop_app, for_loop_idle.
  - cbn [mbind option_bind for_loop].
    replace (0 + Z.of_nat (Z.to_nat (n - 1))) with (n - 1) by lia.
    now destruct (instrument_step p s t (n - 1) a).
  - intros j Hj. apply Hidle. lia.
Qed.

(** C10 as stated fails: on a fresh engine and a one-day matrix of 2^31 + 1
    columns where only the last instrument signals a buy, the position the
    run creates has the key -2^31, and the valuation of that day reads out
    of bounds. *)
Lemma wide_matrix_key_wraps :
  let prices := {| shape := [1; 2147483649]; data := λ _ _, Fin 1 |} in
  let signals :=
    {| shape := [1; 2147483649];
       data := λ _ j, if j =? 2147483648 then Fin 0.5 else Fin 0 |} in
  let engine := ChronoEngine_new (Fin 1000) in
  ndim prices = 2 ∧ ndim signals = 2 ∧ shape prices = shape signals
  ∧ keys_in_range (shape_at prices 1) (account_ engine)
  ∧ (∃ a, trading_day prices signals (shape_at prices 1) 0 (account_ engine)
          = Some a
          ∧ is_Some (positions a !! (-2147483648)))
  ∧ run engine prices signals = OutOfBounds.
Proof.
  intros prices signals engine.
  assert (trading_day prices signals (shape_at prices 1) 0 (account_ engine)
          = Some (trade (Fin 1) (Fin 0.5) 2147483648 (account_ engine))) as Eday.
  { unfold trading_day.
    assert (unlock (account_ engine) = account_ engine) as ->.
    { unfold unlock, engine. cbn [account_ ChronoEngine_new cash positions].
      now rewrite fmap_empty. }
    change (shape_at prices 1) with 2147483649.
    rewrite instrument_pass_last_column; [|lia|].
    - change (2147483649 - 1) with 2147483648.
      rewrite instrument_step_in_range; try reflexivity.
      + change (shape_at prices 0) with 1. lia.
      + change (shape_at prices 1) with 2147483649. lia.
    - intros j Hj. rewrite instrument_step_in_range; try reflexivity.
      + cbn [data prices signals].
        assert ((j =? 2147483648) = false) as -> by lia. reflexivity.
      + change (shape_at prices 0) with 1. lia.
      + change (shape_at prices 1) with 2147483649. lia. }
  assert (is_Some (positions (trade (Fin 1) (Fin 0.5) 2147483648
                                (account_ engine)) !! (-2147483648))) as Hkey.
  { vm_compute. eauto. }
  split; [reflexivity|]. split; [reflexivity|]. split; [reflexivity|].
  split; [|split].
  - unfold keys_in_range, engine. cbn [account_ ChronoEngine_new positions].
    apply map_Forall_empty.
  - eexists. split; [exact Eday|exact Hkey].
  - rewrite run_checks_passed by reflexivity.
    change (Z.to_nat (shape_at prices 0)) with 1%nat. cbn [for_loop].
    unfold day_step. cbn [fst snd]. rewrite Eday. cbn [mbind option_bind].
    rewrite (valuation_outside prices 0 _ (-2147483648) Hkey); [reflexivity|].
    change (shape_at prices 1) with 2147483649. lia.
Qed.

(** ** The theorems at concrete inputs *)

Lemma demo_engine_finite : finite_account (account_ demo_engine).
Proof. split; [reflexivity|]. apply map_Forall_empty. Defined.

(** Scenarios 2 and 3 of the specification: the buy leaves 4997 in cash and
    an equity of 9997; the sell of the next day closes the position and
    leaves 9994. *)
Example demo_run_equity :
  match run demo_engine demo_prices demo_signals with
  | Returned engine [e0; e1] =>
      e0 =d= Fin 9997 ∧ e1 =d= Fin 9994
      ∧ cash (account_ engine) =d= Fin 9994
      ∧ positions (account_ engine) !! 0 = Some Position0
  | _ => False
  end.
Proof. vm_compute. repeat split. Qed.

Lemma run_equity_series_witness :
  ∃ engine' equity,
    run demo_engine demo_prices demo_signals = Returned engine' equity
    ∧ length equity = Z.to_nat (shape_at demo_prices 0)
    ∧ ∀ t, 0 ≤ t < shape_at demo_prices 0 →
        ∃ a_t e_t,
          account_after demo_prices demo_signals (account_ demo_engine) t
          = Some a_t
          ∧ equity !! Z.to_nat t = Some e_t
          ∧ e_t =d= equity_value demo_prices t a_t.
Proof.
  apply run_equity_series.
  - reflexivity.
  - reflexivity.
  - reflexivity.
  - vm_compute. discriminate.
  - apply map_Forall_empty.
Defined.

Lemma run_shape_mismatch_witness :
  shape demo_prices ≠ shape (matrix [[Fin 1; Fin 1]])
  ∧ (∃ e, ShapeMismatch e
          ∧ run demo_engine demo_prices (matrix [[Fin 1; Fin 1]])
            = Thrown demo_engine e)
  ∧ run_points demo_engine demo_prices (matrix [[Fin 1; Fin 1]]) = [].
Proof.
  assert (shape demo_prices ≠ shape (matrix [[Fin 1; Fin 1]])) as H
    by (vm_compute; discriminate).
  split; [exact H|].
  apply run_shape_mismatch. right. right. exact H.
Defined.






Lemma sell_all_closes_position_witness :
  positions (trade (Fin 10) (Fin (-1)) 0 demo_holding) !! static_cast_int 0
  = Some {| total_shares := Fin 0; sellable_shares := Fin 0;
            avg_cost := Fin 0 |}
  ∧ cash (trade (Fin 10) (Fin (-1)) 0 demo_holding)
    =d= (Fin 4997 + Fin 500 * Fin 10 * (Fin 1 - commission - slippage))%D.
Proof.
  apply (sell_all_closes_position (Fin 10) (Fin (-1)) 0 demo_holding
           {| total_shares := Fin 500; sellable_shares := Fin 500;
              avg_cost := Fin 10 |}); reflexivity.
Defined.


Lemma valuation_in_bounds_iff_keys_in_range_witness :
  run demo_engine demo_prices demo_signals ≠ OutOfBounds
  ↔ keys_in_range (shape_at demo_prices 1) (account_ demo_engine).
Proof.
  apply (proj2 (proj2 (proj2 (proj2 valuation_in_bounds_iff_keys_in_range)))).
  - reflexivity.
  - reflexivity.
  - reflexivity.
  - vm_compute. discriminate.
  - reflexivity.
Defined.


(** * Further properties of the engine *)

(** ** The errors of [run] *)

(** X1. [run] throws exactly when an array is not two-dimensional or the
    shapes differ.  The dimension check comes first: its message is thrown
    exactly when one of the arrays is not two-dimensional, whatever the
    shapes are; the message of the shape check exactly when both arrays are
    two-dimensional and their shapes differ.  On well-shaped inputs [run]
    never throws. *)
Theorem run_throws_iff (engine : ChronoEngine) (prices signals : array_t) :
  (run engine prices signals
   = Thrown engine (runtime_error "prices and signals must be 2D arrays")
   ↔ ndim prices ≠ 2 ∨ ndim signals ≠ 2)
  ∧ (run engine prices signals
     = Thrown engine (runtime_error "prices and signals shapes must match")
     ↔ ndim prices = 2 ∧ ndim signals = 2 ∧ shape prices ≠ shape signals)
  ∧ ((∃ engine' e, run engine prices signals = Thrown engine' e)
     ↔ ndim prices ≠ 2 ∨ ndim signals ≠ 2 ∨ shape prices ≠ shape signals).
Proof.
  assert (shape prices = shape signals →
          shape_at prices 0 = shape_at signals 0
          ∧ shape_at prices 1 = shape_at signals 1) as Hsame.
  { intros H. unfold shape_at. now rewrite H. }
  unfold run.
  destruct (ndim prices =? 2) eqn:E1; cbn [negb orb].
  2: { apply Z.eqb_neq in E1. split; [|split].
       - split; [tauto|reflexivity].
       - split; [discriminate|tauto].
       - split; [tauto|eauto]. }
  destruct (ndim signals =? 2) eqn:E2; cbn [negb orb].
  2: { apply Z.eqb_neq in E2. split; [|split].
       - split; [tauto|reflexivity].
       - split; [discriminate|tauto].
       - split; [tauto|eauto]. }
  apply Z.eqb_eq in E1, E2.
  destruct (negb (shape_at prices 0 =? shape_at signals 0)
            || negb (shape_at prices 1 =? shape_at signals 1)) eqn:E3.
  - assert (shape prices ≠ shape signals) as Hne.
    { intros H. destruct (Hsame H) as [H0 H1].
      rewrite H0, H1, !Z.eqb_refl in E3. discriminate. }
    split; [|split].
    + split; [discriminate|lia].
    + split; [tauto|reflexivity].
    + split; [tauto|eauto].
  - apply orb_false_iff in E3 as [E3 E4].
    apply negb_false_iff, Z.eqb_eq in E3, E4.
    pose proof (shape_eq_2d prices signals E1 E2 E3 E4) as Heq.
    destruct (for_loop _ _ _ _) as [[a equity]|].
    + split; [|split].
      * split; [discriminate|lia].
      * split; [discriminate|tauto].
      * split; [intros (? & ? & [=])|tauto].
    + split; [|split].
      * split; [discriminate|lia].
      * split; [discriminate|tauto].
      * split; [intros (? & ? & [=])|tauto].
Qed.


(** ** Runs compose *)

Section LoopsMore.
Context {S : Type}.

Lemma for_loop_ext (body body' : Z → S → option S) n i s :
  (∀ j x, i ≤ j < i + Z.of_nat n → body j x = body' j x) →
  for_loop n i body s = for_loop n i body' s.
Proof.
  revert i s. induction n as [|n IH]; intros i s H; cbn [for_loop];
    [reflexivity|].
  rewrite H by lia. destruct (body' i s); [|reflexivity].
  apply IH. intros j x Hj. apply H. lia.
Qed.

Lemma for_loop_shift (body : Z → S → option S) n i d s :
  for_loop n (i + d) body s = for_loop n i (λ j, body (j + d)) s.
Proof.
  revert i s. induction n as [|n IH]; intros i s; cbn [for_loop];
    [reflexivity|].
  destruct (body (i + d) s); [|reflexivity].
  rewrite <- IH. f_equal. lia.
Qed.
End LoopsMore.

(** A day reads the arrays only through its own row. *)
Lemma instrument_step_row p s t p' s' t' stock a :
  unchecked p t stock = unchecked p' t' stock →
  unchecked s t stock = unchecked s' t' stock →
  instrument_step p s t stock a = instrument_step p' s' t' stock a.
Proof. intros Hp Hs. unfold instrument_step. now rewrite Hp, Hs. Qed.

Lemma valuation_row p t p' t' a :
  (∀ stock, unchecked p t stock = unchecked p' t' stock) →
  valuation p t a = valuation p' t' a.
Proof.
  intros Hp. unfold valuation. rewrite !map_fold_foldr.
  apply foldr_ext; [|reflexivity|reflexivity].
  intros [key pos] acc. cbn [uncurry fst snd]. unfold valuation_step.
  now rewrite Hp.
Qed.

Lemma day_step_row p s t p' s' t' n st :
  (∀ stock, unchecked p t stock = unchecked p' t' stock) →
  (∀ stock, unchecked s t stock = unchecked s' t' stock) →
  day_step p s n t st = day_step p' s' n t' st.
Proof.
  intros Hp Hs. unfold day_step, trading_day, instrument_pass.
  rewrite (for_loop_ext (instrument_step p s t) (instrument_step p' s' t'))
    by (intros; now apply instrument_step_row).
  destruct (for_loop _ _ _ _) as [a|]; [|reflexivity].
  cbn [mbind option_bind]. now rewrite (valuation_row p t p' t').
Qed.

(** The day loop appends to the equity vector it is given. *)
Lemma day_loop_prefix p s n count t a equity0 :
  for_loop count t (day_step p s n) (a, equity0)
  = match for_loop count t (day_step p s n) (a, []) with
    | Some (a', equity) => Some (a', equity0 ++ equity)
    | None => None
    end.
Proof.
  revert t a equity0. induction count as [|count IH]; intros t a equity0.
  - cbn [for_loop]. now rewrite app_nil_r.
  - cbn [for_loop]. unfold day_step at 1 3. cbn [fst snd].
    destruct (trading_day p s n t a) as [a1|]; [|reflexivity].
    cbn [mbind option_bind].
    destruct (valuation p t a1) as [e|]; [|reflexivity].
    cbn [mbind option_bind app].
    rewrite (IH (t + 1) a1 (equity0 ++ [e])), (IH (t + 1) a1 [e]).
    destruct (for_loop count (t + 1) (day_step p s n) (a1, []))
      as [[a' equity]|]; [|reflexivity].
    now rewrite <- app_assoc.
Qed.

Lemma unchecked_take_rows k a t stock :
  0 ≤ t < k → k ≤ shape_at a 0 →
  unchecked a t stock = unchecked (take_rows k a) t stock.
Proof.
  intros Ht Hk. unfold unchecked, take_rows, shape_at. cbn [shape data nth].
  fold (shape_at a 0). fold (shape_at a 1).
  replace (t <? shape_at a 0) with true by lia.
  replace (t <? k) with true by lia. reflexivity.
Qed.

Lemma unchecked_drop_rows k a t stock :
  0 ≤ k → 0 ≤ t →
  unchecked a (t + k) stock = unchecked (drop_rows k a) t stock.
Proof.
  intros Hk Ht. unfold unchecked, drop_rows, shape_at. cbn [shape data nth].
  fold (shape_at a 0). fold (shape_at a 1).
  replace (0 <=? t + k) with true by lia.
  replace (0 <=? t) with true by lia.
  replace (t + k <? shape_at a 0) with (t <? shape_at a 0 - k) by lia.
  reflexivity.
Qed.

(** X2. The engine carries its account from one call of [run] to the next:
    for well-shaped matrices and a split point [k] between 0 and the
    number of days, running on the first [k] days and then, with the same
    engine, on the remaining days ends exactly as the single run over all
    days does, with the same final engine and the two equity vectors one
    after the other; either way an out-of-bounds read of one is an
    out-of-bounds read of the other. *)
Theorem run_split_days
    (engine : ChronoEngine) (prices signals : array_t) (k : Z) :
  ndim prices = 2 → ndim signals = 2 → shape prices = shape signals →
  0 ≤ k ≤ shape_at prices 0 →
  run engine prices signals
  = match run engine (take_rows k prices) (take_rows k signals) with
    | Returned engine1 equity1 =>
        match run engine1 (drop_rows k prices) (drop_rows k signals) with
        | Returned engine2 equity2 => Returned engine2 (equity1 ++ equity2)
        | _ => OutOfBounds
        end
    | _ => OutOfBounds
    end.
Proof.
  intros H1 H2 H3 Hk.
  assert (shape_at prices 0 = shape_at signals 0
          ∧ shape_at prices 1 = shape_at signals 1) as [Hr Hc]
    by (unfold shape_at; now rewrite H3).
  assert (shape (take_rows k prices) = shape (take_rows k signals)) as Ht
    by (unfold take_rows; cbn [shape]; now rewrite Hc).
  assert (shape (drop_rows k prices) = shape (drop_rows k signals)) as Hd
    by (unfold drop_rows; cbn [shape]; now rewrite Hr, Hc).
  rewrite (run_checks_passed engine prices signals) by assumption.
  rewrite (run_checks_passed engine (take_rows k prices) (take_rows k signals))
    by (reflexivity || assumption).
  change (shape_at (take_rows k prices) 0) with k.
  change (shape_at (take_rows k prices) 1) with (shape_at prices 1).
  set (n := shape_at prices 1).
  replace (Z.to_nat (shape_at prices 0))
    with (Z.to_nat k + Z.to_nat (shape_at prices 0 - k))%nat by lia.
  rewrite for_loop_app.
  rewrite (for_loop_ext (day_step prices signals n)
             (day_step (take_rows k prices) (take_rows k signals) n)).
  2: { intros j x Hj. apply day_step_row; intros stock;
       apply unchecked_take_rows; lia. }
  destruct (for_loop (Z.to_nat k) 0 _ (account_ engine, []))
    as [[a1 equity1]|]; [|reflexivity].
  cbn [mbind option_bind].
  rewrite (run_checks_passed _ (drop_rows k prices) (drop_rows k signals))
    by (reflexivity || assumption).
  change (shape_at (drop_rows k prices) 0) with (shape_at prices 0 - k).
  change (shape_at (drop_rows k prices) 1) with n.
  cbn [account_].
  replace (0 + Z.of_nat (Z.to_nat k)) with (0 + k) by lia.
  rewrite for_loop_shift.
  rewrite (for_loop_ext (λ j, day_step prices signals n (j + k))
             (day_step (drop_rows k prices) (drop_rows k signals) n)).
  2: { intros j x Hj. apply day_step_row; intros stock;
       apply unchecked_drop_rows; lia. }
  rewrite day_loop_prefix.
  destruct (for_loop _ 0 _ (a1, [])) as [[a2 equity2]|]; reflexivity.
Qed.


(** ** Trades cost the fee *)















(** ** The average cost *)




(** ** Which buys go through *)



(** ** Bad cells do not reach the results *)




(** ** The lock at the turn of an instrument *)

Lemma instrument_step_other p s t j a a' key :
  key ≠ static_cast_int j →
  instrument_step p s t j a = Some a' →
  positions a' !! key = positions a !! key.
Proof.
  intros Hne. unfold instrument_step.
  destruct (unchecked p t j) as [price|]; [|discriminate].
  cbn [mbind option_bind].
  destruct (skip_price price); [now intros [= <-]|].
  destruct (unchecked s t j) as [sig|]; [|discriminate].
  cbn [mbind option_bind]. intros [= <-]. now apply trade_lookup_other.
Qed.

(** The instrument loop of a day goes through the turn of each of its
    instruments. *)
Lemma trading_day_through_turn p s n t stock a :
  0 ≤ stock ≤ n →
  trading_day p s n t a
  = account_at_turn p s t stock a
    ≫= for_loop (Z.to_nat (n - stock)) stock (instrument_step p s t).
Proof.
  intros Hs. unfold trading_day, instrument_pass, account_at_turn.
  replace (Z.to_nat n) with (Z.to_nat stock + Z.to_nat (n - stock))%nat by lia.
  rewrite for_loop_app. do 2 f_equal. lia.
Qed.

(** X7. With column indices that fit [int], when the instrument loop of a
    day reaches an instrument, the position of that instrument is as the
    unlock of that day left it: all its shares are sellable.  So on a
    sound account of real numbers the cap by [sellable_shares] never
    binds, and a sell disposes of [total_shares * min(-signal, 1)]. *)
Theorem position_unlocked_at_its_turn
    (p s : array_t) (t stock : Z) (a a' : Account) (pos : Position) :
  0 ≤ stock < INT_COLUMNS →
  account_at_turn p s t stock a = Some a' →
  positions a' !! static_cast_int stock = Some pos →
  sellable_shares pos = total_shares pos
  ∧ (finite_account a → account_inv a →
     ∀ sig, (sig <? Fin 0)%D = true →
       sell_shares pos sig
       =d= (total_shares pos * dmin (- sig) (Fin 1))%D).
Proof.
  unfold account_at_turn. intros Hstock Hloop Hpos.
  rewrite static_cast_int_small in Hpos by assumption.
  assert (positions a' !! stock = positions (unlock a) !! stock) as Hsame.
  { apply (for_loop_invariant (instrument_step p s t)
             (λ x, positions x !! stock = positions (unlock a) !! stock)
             (Z.to_nat stock) 0 (unlock a) a'); [|reflexivity|exact Hloop].
    intros j x y Hj Hx Hstep. rewrite <- Hx.
    apply (instrument_step_other p s t j x y stock); [|exact Hstep].
    rewrite static_cast_int_small by lia. lia. }
  rewrite Hpos, unlock_lookup in Hsame.
  destruct (positions a !! stock) as [pos0|] eqn:Ek; [|discriminate].
  injection Hsame as ->.
  split; [reflexivity|].
  intros [_ Hm] Hinv sig Hsig.
  destruct (dmin_signal_neg _ Hsig) as (g & Eg & Hg & _).
  pose proof (Hinv _ _ Ek) as Hi.
  destruct (finite_position_Fin _ (Hm _ _ Ek)) as (T & S & A & ->).
  apply position_inv_Fin in Hi as (HS0 & HST & _).
  unfold unlock_position. cbn [total_shares sellable_shares avg_cost].
  rewrite (sell_shares_Fin _ _ _ _ _ Eg), Eg. cbn [dmul deq].
  destruct (Qltb (T * g) T) eqn:E; qprops; [reflexivity|]. nra.
Qed.


(** ** Runs that do not trade *)

Lemma unlock_idempotent a : unlock (unlock a) = unlock a.
Proof.
  unfold unlock. cbn [cash positions]. f_equal.
  apply map_eq. intros key. rewrite !lookup_fmap.
  now destruct (positions a !! key).
Qed.

Lemma trade_idle price sig stock a :
  idle_signal sig = true → trade price sig stock a = a.
Proof.
  unfold idle_signal, trade. intros H.
  apply andb_true_iff in H as [H1 H2].
  apply negb_true_iff in H1, H2. now rewrite H1, H2.
Qed.

Section IdleDay.
Variables (p s : array_t) (t : Z).
Hypothesis same_rows : shape_at p 0 = shape_at s 0.
Hypothesis same_columns : shape_at p 1 = shape_at s 1.
Hypothesis day_in_range : 0 ≤ t < shape_at p 0.

(** A day on which no instrument trades: every cell has a skipped price or
    an idle signal. *)
Lemma trading_day_idle a :
  (∀ stock, 0 ≤ stock < shape_at p 1 →
     skip_price (data p t stock) = true
     ∨ idle_signal (data s t stock) = true) →
  trading_day p s (shape_at p 1) t a = Some (unlock a).
Proof.
  intros Hidle. unfold trading_day, instrument_pass.
  apply for_loop_idle. intros j Hj.
  rewrite (instrument_step_in_range p s same_rows same_columns)
    by (assumption || lia).
  destruct (Hidle j ltac:(lia)) as [-> | H]; [reflexivity|].
  rewrite trade_idle by assumption. now if_case.
Qed.
End IdleDay.

(** X8. A run on well-shaped matrices over at least one day, from an
    account whose keys are column indices, in which every signal is zero
    or NaN: no trade happens.  The run returns and leaves the starting
    account with its positions unlocked: cash, total shares and average
    costs are untouched.  The equity of each day is the value of that same
    account at the prices of the day. *)
Theorem run_without_signals
    (engine : ChronoEngine) (prices signals : array_t) :
  ndim prices = 2 → ndim signals = 2 → shape prices = shape signals →
  0 < shape_at prices 0 →
  keys_in_range (shape_at prices 1) (account_ engine) →
  (∀ t stock, 0 ≤ t < shape_at prices 0 → 0 ≤ stock < shape_at prices 1 →
     idle_signal (data signals t stock) = true) →
  ∃ equity,
    run engine prices signals
    = Returned {| account_ := unlock (account_ engine) |} equity
    ∧ length equity = Z.to_nat (shape_at prices 0)
    ∧ ∀ t, 0 ≤ t < shape_at prices 0 →
        ∃ e, equity !! Z.to_nat t = Some e
             ∧ e =d= equity_value prices t (unlock (account_ engine)).
Proof.
  intros H1 H2 H3 Hdays Hkeys Hidle.
  assert (shape_at prices 0 = shape_at signals 0
          ∧ shape_at prices 1 = shape_at signals 1) as [Hr Hc]
    by (unfold shape_at; now rewrite H3).
  rewrite run_checks_passed by assumption.
  set (n := shape_at prices 1) in *.
  assert (∀ count t0 x equity0,
            0 ≤ t0 → t0 + Z.of_nat count ≤ shape_at prices 0 →
            keys_in_range n x →
            ∃ equity,
              for_loop count t0 (day_step prices signals n) (x, equity0)
              = Some (match count with O => x | _ => unlock x end,
                      equity0 ++ equity)
              ∧ length equity = count
              ∧ ∀ i, (i < count)%nat →
                  ∃ e, equity !! i = Some e
                       ∧ e =d= equity_value prices (t0 + Z.of_nat i)
                                 (unlock x)) as Hloop.
  { induction count as [|count IH]; intros t0 x equity0 Ht0 Hend Hx.
    - exists []. cbn [for_loop]. rewrite app_nil_r.
      split; [reflexivity|]. split; [reflexivity|]. intros i Hi. lia.
    - assert (0 ≤ t0 < shape_at prices 0) as Ht by lia.
      assert (trading_day prices signals n t0 x = Some (unlock x)) as Eday.
      { apply (trading_day_idle prices signals t0 Hr Hc Ht).
        intros stock Hs. right. now apply Hidle. }
      destruct (valuation_value prices t0 Ht (unlock x) (unlock_keys n x Hx))
        as (e & Eval & He).
      destruct (IH (t0 + 1) (unlock x) (equity0 ++ [e]))
        as (equity & E & Hlen & Hi);
        [lia|lia|now apply unlock_keys|].
      exists (e :: equity). split; [|split].
      + cbn [for_loop]. unfold day_step at 1. cbn [fst snd].
        rewrite Eday. cbn [mbind option_bind]. rewrite Eval.
        cbn [mbind option_bind]. rewrite E, <- app_assoc. cbn [app].
        do 2 f_equal. destruct count; [reflexivity|apply unlock_idempotent].
      + cbn [length]. now rewrite Hlen.
      + intros [|i] Hlt.
        * exists e. split; [reflexivity|]. now rewrite Z.add_0_r.
        * destruct (Hi i ltac:(lia)) as (e' & He1 & He2).
          exists e'. split; [exact He1|].
          rewrite unlock_idempotent in He2.
          now replace (t0 + Z.of_nat (Datatypes.S i))
            with (t0 + 1 + Z.of_nat i) by lia. }
  destruct (Hloop (Z.to_nat (shape_at prices 0)) 0 (account_ engine) [])
    as (equity & E & Hlen & Hi); [lia|lia|assumption|].
  rewrite E. cbn [app].
  destruct (Z.to_nat (shape_at prices 0)) as [|count] eqn:Ecount; [lia|].
  exists equity. split; [reflexivity|]. split; [exact Hlen|].
  intros t Ht. destruct (Hi (Z.to_nat t) ltac:(lia)) as (e & He1 & He2).
  exists e. split; [exact He1|].
  now replace (0 + Z.of_nat (Z.to_nat t)) with t in He2 by lia.
Qed.


(** ** A day without prices *)

Lemma valuation_all_skipped p t a :
  0 ≤ t < shape_at p 0 →
  keys_in_range (shape_at p 1) a →
  (∀ stock, 0 ≤ stock < shape_at p 1 → skip_price (data p t stock) = true) →
  valuation p t a = Some (cash a).
Proof.
  intros Ht Hk Hskip. unfold valuation. rewrite map_fold_foldr.
  apply map_Forall_to_list in Hk.
  induction Hk as [|[key pos] l Hkey _ IH]; [reflexivity|].
  cbn [foldr uncurry fst snd] in *. rewrite IH. unfold valuation_step.
  cbn [mbind option_bind]. rewrite unchecked_in_range by assumption.
  cbn [mbind option_bind].
  pose proof (Hskip key Hkey) as Hs. rewrite skip_price_valuation in Hs.
  apply negb_true_iff in Hs. now rewrite Hs.
Qed.

(** X9. A day on which every price is NaN, infinite or not positive, on
    well-shaped matrices and an account whose keys are column indices:
    whatever the signals are, the day only unlocks the positions, and the
    equity it appends is the cash alone. *)
Theorem day_without_prices
    (p s : array_t) (t : Z) (a : Account) (equity : list double) :
  shape_at p 0 = shape_at s 0 → shape_at p 1 = shape_at s 1 →
  0 ≤ t < shape_at p 0 →
  keys_in_range (shape_at p 1) a →
  (∀ stock, 0 ≤ stock < shape_at p 1 → skip_price (data p t stock) = true) →
  day_step p s (shape_at p 1) t (a, equity)
  = Some (unlock a, equity ++ [cash a]).
Proof.
  intros Hr Hc Ht Hk Hskip. unfold day_step. cbn [fst snd].
  rewrite (trading_day_idle p s t Hr Hc Ht) by (intros; left; now apply Hskip).
  cbn [mbind option_bind].
  rewrite (valuation_all_skipped p t (unlock a)); try assumption.
  - reflexivity.
  - now apply unlock_keys.
Qed.


(** ** Later runs on at least as many columns *)

Lemma instrument_step_stock_in_range p s t stock a a' :
  instrument_step p s t stock a = Some a' → 0 ≤ stock < shape_at p 1.
Proof.
  unfold instrument_step, unchecked.
  destruct ((0 <=? t) && (t <? shape_at p 0) && (0 <=? stock)
            && (stock <? shape_at p 1)) eqn:E; [|discriminate].
  intros _. rewrite !andb_true_iff in E. lia.
Qed.

Lemma instrument_step_keeps_keys p s t stock a a' :
  shape_at p 1 ≤ INT_COLUMNS →
  keys_in_range (shape_at p 1) a →
  instrument_step p s t stock a = Some a' →
  keys_in_range (shape_at p 1) a'.
Proof.
  intros Hn Hk Hstep.
  pose proof (instrument_step_stock_in_range _ _ _ _ _ _ Hstep) as Hs.
  revert Hstep. unfold instrument_step.
  destruct (unchecked p t stock) as [price|]; [|discriminate].
  cbn [mbind option_bind].
  destruct (skip_price price); [now intros [= <-]|].
  destruct (unchecked s t stock) as [sig|]; [|discriminate].
  cbn [mbind option_bind]. intros [= <-]. now apply trade_keys.
Qed.

Lemma keys_in_range_mono n n' a :
  n ≤ n' → keys_in_range n a → keys_in_range n' a.
Proof. intros Hn Hk key pos Hpos. specialize (Hk key pos Hpos). cbn in *. lia. Qed.

(** X10. An engine whose keys are column indices, run on well-shaped
    matrices with at most 2^31 columns, keeps its keys inside the columns;
    so a later run of the same engine on well-shaped matrices with at
    least as many columns, and at most 2^31, reads in bounds and returns,
    and again leaves keys inside its columns. *)
Theorem later_run_on_more_columns_in_bounds
    (engine engine1 : ChronoEngine) (prices1 signals1 prices2 signals2 : array_t)
    (equity1 : list double) :
  shape_at prices1 1 ≤ INT_COLUMNS →
  keys_in_range (shape_at prices1 1) (account_ engine) →
  run engine prices1 signals1 = Returned engine1 equity1 →
  ndim prices2 = 2 → ndim signals2 = 2 → shape prices2 = shape signals2 →
  shape_at prices1 1 ≤ shape_at prices2 1 → shape_at prices2 1 ≤ INT_COLUMNS →
  keys_in_range (shape_at prices1 1) (account_ engine1)
  ∧ ∃ engine2 equity2,
      run engine1 prices2 signals2 = Returned engine2 equity2
      ∧ keys_in_range (shape_at prices2 1) (account_ engine2).
Proof.
  intros Hn1 Hk Hrun1 H1 H2 H3 Hmore Hn2.
  assert (keys_in_range (shape_at prices1 1) (account_ engine1)) as Hk1.
  { apply (run_keeps (keys_in_range (shape_at prices1 1)) prices1 signals1
             (unlock_keys _)
             (λ t stock a a' Ha, instrument_step_keeps_keys prices1 signals1
                                   t stock a a' Hn1 Ha)
             engine engine1 equity1 Hk Hrun1). }
  split; [exact Hk1|].
  apply (keys_in_range_mono _ _ _ Hmore) in Hk1.
  assert (shape_at prices2 0 = shape_at signals2 0
          ∧ shape_at prices2 1 = shape_at signals2 1) as [Hr Hc]
    by (unfold shape_at; now rewrite H3).
  rewrite run_checks_passed by assumption.
  destruct (day_loop_series prices2 signals2 Hr Hc Hn2
              (Z.to_nat (shape_at prices2 0)) 0 (account_ engine1) [])
    as (a2 & equity2 & E & _ & Hk2 & _); [lia|lia|assumption|].
  rewrite E. cbn [app]. exists {| account_ := a2 |}, equity2.
  split; [reflexivity|exact Hk2].
Qed.


(** ** Flat prices *)






Section FlatDay.
Variables (p s : array_t) (t : Z).
Hypothesis same_rows : shape_at p 0 = shape_at s 0.
Hypothesis same_columns : shape_at p 1 = shape_at s 1.
Hypothesis columns_fit : shape_at p 1 ≤ INT_COLUMNS.
Hypothesis day_in_range : 0 ≤ t < shape_at p 0.


End FlatDay.




(** ** What a buy spends and what a sell sells *)




(** ** The sign of the signal *)

Lemma dle_refl_finite x : isfinite x = true → (x <=? x)%D = true.
Proof. destruct x; try discriminate. intros _. cbn. qprops. lra. Qed.

(** X14. On a sound account of real numbers, at an accepted price, the
    sign of the signal fixes the direction of the iteration.  A positive
    signal never raises the cash and never lowers the total shares of any
    position; a negative signal never lowers the cash, never raises the
    total shares of any position and never opens a position; a zero or NaN
    signal leaves the account as it is. *)
Theorem signal_sign_fixes_direction
    (price sig : double) (stock : Z) (a : Account) :
  finite_account a → account_inv a → skip_price price = false →
  let a' := trade price sig stock a in
  let total := λ (x : Account) (key : Z),
    total_shares (default Position0 (positions x !! key)) in
  ((sig >? Fin 0)%D = true →
   (cash a' <=? cash a)%D = true
   ∧ ∀ key, (total a key <=? total a' key)%D = true)
  ∧ ((sig <? Fin 0)%D = true →
     (cash a <=? cash a')%D = true
     ∧ (∀ key, (total a' key <=? total a key)%D = true)
     ∧ ∀ key, positions a' !! key = None ↔ positions a !! key = None)
  ∧ (idle_signal sig = true → a' = a).
Proof.
  intros Hfin Hinv Hskip a' total. subst a'.
  pose proof Hfin as [Hc Hm].
  destruct (isfinite_Fin _ Hc) as [c Ec].
  destruct (skip_price_false _ Hskip) as (p0 & -> & Hp0).
  assert (∀ key, (total a key <=? total a key)%D = true) as Hrefl.
  { intros key. apply dle_refl_finite. apply (finite_default _ key Hm). }
  split; [|split].
  - intros Hbuy. rewrite trade_buy by assumption.
    destruct (buy_accepted (Fin p0) sig a) eqn:Hacc.
    2: { rewrite (buy_rejected _ _ _ _ Hacc).
         split; [now apply dle_refl_finite|exact Hrefl]. }
    rewrite (buy_filled _ _ _ _ Hacc).
    destruct (dmin_signal _ Hbuy) as (f & Ef & Hf & _).
    destruct (buy_locals a sig c p0 f Ec Hp0 Ef) as (Et & En & Ek).
    unfold buy_accepted in Hacc. rewrite Et, Ek, Ec in Hacc.
    apply andb_true_iff in Hacc as [Hx _]. apply negb_true_iff in Hx.
    cbn [dle] in Hx. qprops.
    rewrite Et, En, Ek, Ec. cbn [cash positions]. split.
    + cbn. qprops.
      assert (0 < c * f / p0 * p0)%Q by now apply Qmult_lt_0_compat.
      assert (0 <= c * f / p0 * p0 * (1 + 0.0003 + 0.0003))%Q
        by (apply Qmult_le_0_compat; lra).
      lra.
    + intros key. unfold total. cbn [positions].
      destruct (decide (static_cast_int stock = key)) as [->|Hne].
      * rewrite lookup_insert_eq. cbn [default].
        destruct (finite_position_Fin _ (finite_default _ key Hm))
          as (T & S & A & ->).
        unfold bought. cbn. qprops. lra.
      * rewrite lookup_insert_ne by assumption. apply Hrefl.
  - intros Hsell. rewrite trade_sell by assumption.
    destruct (dmin_signal_neg _ Hsell) as (g & Eg & Hg & _).
    unfold sell.
    destruct (positions a !! static_cast_int stock) as [pos|] eqn:Ek.
    2: { split; [now apply dle_refl_finite|]. split; [exact Hrefl|tauto]. }
    pose proof (Hinv _ _ Ek) as Hpos.
    destruct (finite_position_Fin _ (Hm _ _ Ek)) as (T & S & A & ->).
    apply position_inv_Fin in Hpos as (HS0 & HST & _).
    rewrite (sell_shares_Fin _ _ _ _ _ Eg). cbn [dle].
    set (x := if Qltb (T * g) S then (T * g)%Q else S).
    assert (x <= S)%Q as HxS
      by (unfold x; destruct (Qltb _ _) eqn:E; qprops; lra).
    destruct (Qleb x 0) eqn:Hx.
    { split; [now apply dle_refl_finite|]. split; [exact Hrefl|tauto]. }
    qprops. cbn [cash positions]. split; [|split].
    + rewrite Ec. unfold sell_proceeds, commission, slippage. cbn. qprops.
      assert (0 < x * p0)%Q by now apply Qmult_lt_0_compat.
      assert (0 <= x * p0 * (1 + - 0.0003 + - 0.0003))%Q
        by (apply Qmult_le_0_compat; lra).
      lra.
    + intros key. unfold total. cbn [positions].
      destruct (decide (static_cast_int stock = key)) as [<-|Hne].
      * rewrite lookup_insert_eq, Ek. cbn [default]. unfold sold.
        cbn [total_shares sellable_shares dsub dadd dopp dle].
        destruct (Qleb (T + - x) 0) eqn:E; cbn; qprops; lra.
      * rewrite lookup_insert_ne by assumption. apply Hrefl.
    + intros key.
      destruct (decide (static_cast_int stock = key)) as [<-|Hne].
      * rewrite lookup_insert_eq, Ek. split; discriminate.
      * now rewrite lookup_insert_ne.
  - apply trade_idle.
Qed.


(** ** Bounds on the equity *)





(** ** The further properties at concrete inputs *)

Lemma demo_holding_finite : finite_account demo_holding.
Proof.
  split; [reflexivity|]. apply map_Forall_singleton. repeat split.
Defined.

Lemma demo_holding_inv : account_inv demo_holding.
Proof.
  apply map_Forall_singleton. split; [reflexivity|]. split; [reflexivity|].
  cbn. discriminate.
Defined.

Lemma demo_holding_keys : keys_in_range 1 demo_holding.
Proof. apply map_Forall_singleton. cbn. lia. Defined.

(** Side conditions on the concrete inputs. *)
Ltac demo_side E :=
  first [ exact E
        | exact demo_engine_finite
        | exact demo_holding_finite
        | exact demo_holding_inv
        | match goal with
          | |- keys_in_range _ _ => apply map_Forall_empty
          | |- account_inv _ => apply map_Forall_empty
          | |- (_ ≤ _)%Z => vm_compute; discriminate
          | |- (_ < _)%Z => vm_compute; reflexivity
          | |- (_ ≤ _ < _)%Z => vm_compute; lia
          end
        | reflexivity ].

Lemma run_throws_iff_witness :
  run demo_engine demo_prices (matrix [[Fin 1; Fin 1]])
  = Thrown demo_engine (runtime_error "prices and signals shapes must match").
Proof.
  apply (proj1 (proj2 (run_throws_iff demo_engine demo_prices
                         (matrix [[Fin 1; Fin 1]])))).
  split; [reflexivity|]. split; [reflexivity|]. vm_compute. discriminate.
Defined.

Lemma run_split_days_witness :
  run demo_engine demo_prices demo_signals
  = match run demo_engine (take_rows 1 demo_prices)
            (take_rows 1 demo_signals) with
    | Returned engine1 equity1 =>
        match run engine1 (drop_rows 1 demo_prices)
                (drop_rows 1 demo_signals) with
        | Returned engine2 equity2 => Returned engine2 (equity1 ++ equity2)
        | _ => OutOfBounds
        end
    | _ => OutOfBounds
    end.
Proof.
  apply run_split_days; try reflexivity.
  change (shape_at demo_prices 0) with 2. lia.
Defined.





Lemma position_unlocked_at_its_turn_witness :
  let pos := unlock_position
               {| total_shares := Fin 500; sellable_shares := Fin 500;
                  avg_cost := Fin 10 |} in
  account_at_turn demo_prices demo_signals 1 0 demo_holding
  = Some (unlock demo_holding)
  ∧ sellable_shares pos = total_shares pos
  ∧ sell_shares pos (Fin (-0.5))
    =d= (total_shares pos * dmin (- Fin (-0.5)) (Fin 1))%D.
Proof.
  assert (0 ≤ 0 < INT_COLUMNS) as H1 by (unfold INT_COLUMNS; lia).
  assert (positions (unlock demo_holding) !! static_cast_int 0
          = Some (unlock_position
                    {| total_shares := Fin 500; sellable_shares := Fin 500;
                       avg_cost := Fin 10 |})) as H3
    by (vm_compute; reflexivity).
  destruct (position_unlocked_at_its_turn demo_prices demo_signals 1 0
              demo_holding (unlock demo_holding) _ H1 eq_refl H3)
    as [Hs Hsell].
  split; [reflexivity|]. split; [exact Hs|].
  exact (Hsell demo_holding_finite demo_holding_inv (Fin (-0.5)) eq_refl).
Defined.

Lemma run_without_signals_witness :
  ∃ equity,
    run demo_holding_engine demo_prices demo_idle_signals
    = Returned {| account_ := unlock demo_holding |} equity
    ∧ length equity = 2%nat.
Proof.
  destruct (run_without_signals demo_holding_engine demo_prices
              demo_idle_signals) as (equity & H1 & H2 & _).
  - reflexivity.
  - reflexivity.
  - reflexivity.
  - reflexivity.
  - exact demo_holding_keys.
  - change (shape_at demo_prices 0) with 2.
    change (shape_at demo_prices 1) with 1.
    intros t stock Ht Hs. replace stock with 0 by lia.
    destruct (decide (t = 0)) as [->|Hne]; [reflexivity|].
    replace t with 1 by lia. reflexivity.
  - exists equity. split; [exact H1|exact H2].
Defined.

Lemma day_without_prices_witness :
  day_step demo_no_prices (matrix [[Fin 1]]) 1 0 (demo_holding, [])
  = Some (unlock demo_holding, [Fin 4997]).
Proof.
  apply (day_without_prices demo_no_prices (matrix [[Fin 1]]) 0
           demo_holding []).
  - reflexivity.
  - reflexivity.
  - change (shape_at demo_no_prices 0) with 1. lia.
  - exact demo_holding_keys.
  - change (shape_at demo_no_prices 1) with 1.
    intros stock Hs. replace stock with 0 by lia. reflexivity.
Defined.

Lemma later_run_on_more_columns_in_bounds_witness :
  ∃ engine1 equity1 engine2 equity2,
    run demo_engine demo_prices demo_signals = Returned engine1 equity1
    ∧ run engine1 (matrix [[Fin 10; Fin 10]]) (matrix [[Fin 0; Fin 0.5]])
      = Returned engine2 equity2.
Proof.
  assert (∃ engine1 equity1,
            run demo_engine demo_prices demo_signals
            = Returned engine1 equity1) as (engine1 & equity1 & E)
    by (eexists _, _; vm_compute; reflexivity).
  destruct (later_run_on_more_columns_in_bounds demo_engine engine1
              demo_prices demo_signals
              (matrix [[Fin 10; Fin 10]]) (matrix [[Fin 0; Fin 0.5]]) equity1)
    as (_ & engine2 & equity2 & E2 & _); try demo_side E.
  exists engine1, equity1, engine2, equity2. split; [exact E|exact E2].
Defined.




Lemma signal_sign_fixes_direction_witness :
  (cash (trade (Fin 10) (Fin 0.5) 0 demo_holding) <=? cash demo_holding)%D
  = true.
Proof.
  apply (proj1 (signal_sign_fixes_direction (Fin 10) (Fin 0.5) 0 demo_holding
                  demo_holding_finite demo_holding_inv eq_refl)).
  reflexivity.
Defined.


